(** * Semantic search and rank fusion of the IT-problems tracker

    A shallow embedding of the search core of the backend:
    - [embeddingService.js]: [initializeModel], [generateEmbedding],
      [cosineSimilarity];
    - [supabaseService.js]: the similarity and ranking steps of
      [semanticSearch];
    - [externalSourcesService.js]: [calculateStackOverflowRelevance],
      [searchStackOverflow], [searchYouTube], [searchAllSources],
      [combineAndRankResults], [extractAllLinks];
    - [supabaseService.js]: [addProblemWithEmbedding], [updateEmbedding],
      [updateProblem];
    - [middleware/validation.js]: [validateProblem],
      [validateSearchParams].

    Modelling conventions.
    - A JavaScript number is a real number ([R]): arithmetic is exact, and
      the IEEE special values (NaN, the infinities, the signed zero) and
      rounding are outside the model.  [Math.sqrt], [Math.log10] and
      [Math.round] are the real square root, the decimal logarithm and
      rounding half up.  Only [cosineSimilarity], whose contract speaks of
      NaN, is read a second time in binary64 ([cosineSimilarity64]).
      A score of the runtime differs from its exact reading by a rounding
      error: a statement that a score meets a bound or a threshold with
      equality is a statement about the exact reading
      ([cosineSimilarity64_rounding]).
    - A call that may throw returns a [result]; the outcome of an awaited
      promise is [result] as well, and [Promise.allSettled] turns it into a
      [settled] value.
    - The module state of [embeddingService.js] (the cached [embedder]) and
      the calls made to the transformer pipeline are threaded explicitly
      through [state].
    - The cooperative busy wait on [isInitializing] is not modelled: calls
      are run one after the other. *)

From Stdlib Require Import Floats.
From Stdlib Require Import Reals Lra Lia ZArith String Ascii Bool List.
From Stdlib Require Import Permutation Sorted.
Import ListNotations.
Local Open Scope R_scope.

(** ** The JavaScript runtime *)

Module JS.

(** Errors the modelled code throws or lets through.  The comments give
    the message of the [Error] in the source. *)
Inductive error : Type :=
| TextNotNonEmptyString    (* Text muss ein nicht-leerer String sein *)
| TextEmptyAfterTrim       (* Text ist leer nach Bereinigung *)
| VectorLengthMismatch     (* Vektoren muessen gleiche Laenge haben *)
| QueryNotNonEmptyString   (* Query muss ein nicht-leerer String sein *)
| EmbeddingsFetchFailed    (* Fehler beim Abrufen der Embeddings *)
| ProblemsFetchFailed      (* Fehler beim Abrufen der Probleme *)
| TypeError                (* read of undefined, call of no function *)
| RangeError               (* Invalid time value *)
| SyntaxError              (* JSON.parse on malformed text *)
| External (code : Z).     (* thrown by a collaborator: model, HTTP, store *)

Inductive result (A : Type) : Type :=
| Ok (a : A)
| Throw (e : error).
Arguments Ok {A} a.
Arguments Throw {A} e.

(** What [Promise.allSettled] reports for one promise. *)
Inductive settled (A : Type) : Type :=
| Fulfilled (value : A)
| Rejected (reason : error).
Arguments Fulfilled {A} value.
Arguments Rejected {A} reason.

Definition settle {A} (r : result A) : settled A :=
  match r with
  | Ok a => Fulfilled a
  | Throw e => Rejected e
  end.

(** What a collaborator outside the repository (the transformer model,
    the store, an HTTP API) answers: a value, or a failure of its own. *)
Inductive outcome (A : Type) : Type :=
| Returned (a : A)
| Failed (code : Z).
Arguments Returned {A} a.
Arguments Failed {A} code.

(** Awaiting a collaborator: its failure is thrown as it is. *)
Definition await {A} (o : outcome A) : result A :=
  match o with
  | Returned a => Ok a
  | Failed code => Throw (External code)
  end.

(** [x >= y], [x < y] and [x === y] on numbers. *)
Definition Rgeb (x y : R) : bool := if Rle_dec y x then true else false.
Definition Rltb (x y : R) : bool := if Rlt_dec x y then true else false.
Definition Reqb (x y : R) : bool := if Req_dec_T x y then true else false.

(** [l.slice(0, e)] for an integer [e]: a negative [e] counts from the
    end of the array. *)
Definition slice {A} (l : list A) (e : Z) : list A :=
  let len := Z.of_nat (length l) in
  let final := if (e <? 0)%Z then Z.max (len + e) 0 else Z.min e len in
  firstn (Z.to_nat final) l.

(** [new Array(n).fill(0)] *)
Definition zeros (n : nat) : list R := repeat 0 n.

(** [Array.prototype.sort] with a comparator.  The sort is stable; for a
    comparator [cmp], [cmp a b > 0] puts [a] after [b].  The model is the
    stable insertion sort: [x] comes before the elements of [l] in the
    input, and moves behind those it has to come after. *)
Fixpoint insert {A} (cmp : A -> A -> R) (x : A) (l : list A) : list A :=
  match l with
  | [] => [x]
  | y :: l' => if Rlt_dec 0 (cmp x y) then y :: insert cmp x l' else x :: l
  end.

Definition sort {A} (cmp : A -> A -> R) (l : list A) : list A :=
  fold_right (insert cmp) [] l.

(** The comparators of the source all have the form
    [(a, b) => key(b) - key(a)]; an array sorted with one of them is meant
    to be [descending] in the key. *)
Definition by_key_desc {A} (key : A -> R) (a b : A) : R := key b - key a.

Definition descending {A} (key : A -> R) (a b : A) : Prop :=
  key b <= key a.

(** [Math.round]: the nearest integer, halves rounded up. *)
Definition Math_round (x : R) : R := IZR (Zfloor (x + / 2)).

(** [Math.log10], of a positive number. *)
Definition Math_log10 (x : R) : R := ln x / ln 10.

(** A number without its fraction (ToIntegerOrInfinity). *)
Definition truncate (x : R) : Z :=
  if Rle_dec 0 x then Zfloor x else Zceil x.

(** [new Date(t).toISOString()] for a number [t] of milliseconds.  Beyond
    8.64e15 milliseconds either way the date is invalid, and
    [toISOString] throws a RangeError on it.  For a valid date the text is
    the runtime's, [toISOString], read on the time value: [t] without its
    fraction. *)
Definition Date_toISOString (toISOString : Z -> string) (t : R)
  : result string :=
  if Rlt_dec 8640000000000000 (Rabs t) then Throw RangeError
  else Ok (toISOString (truncate t)).

(** [String.prototype.trim], on strings of code units below 256: the
    white space and line terminators of that range. *)
Definition is_white_space (c : ascii) : bool :=
  let n := nat_of_ascii c in
  ((9 <=? n)%nat && (n <=? 13)%nat) || (n =? 32)%nat || (n =? 160)%nat.

Fixpoint trimStart (s : string) : string :=
  match s with
  | EmptyString => EmptyString
  | String c s' => if is_white_space c then trimStart s' else s
  end.

Fixpoint trimEnd (s : string) : string :=
  match s with
  | EmptyString => EmptyString
  | String c s' =>
      match trimEnd s' with
      | EmptyString => if is_white_space c then EmptyString
                       else String c EmptyString
      | t => String c t
      end
  end.

Definition trim (s : string) : string := trimEnd (trimStart s).

(** [!s] for a string [s]: only the empty string is falsy. *)
Definition falsy_string (s : string) : bool :=
  match s with
  | EmptyString => true
  | _ => false
  end.

End JS.
Import JS.

(** ** embeddingService.js *)

Module EmbeddingService.

(** A call made to the transformers library. *)
Inductive call : Type :=
| LoadPipeline                 (* pipeline(feature-extraction, ...) *)
| Infer (cleanedText : string). (* model(cleanedText, {pooling, normalize}) *)

(** The module variable [embedder] (is a model cached?) and the calls made
    so far, oldest first. *)
Record state : Type := mkState {
  embedder : bool;
  calls : list call
}.

Section Backend.

(** The transformers library: the outcome of loading the pipeline, and
    [output.data] of an inference on a text. *)
Variable pipeline : outcome unit.
Variable model : string -> outcome (list R).

Definition initializeModel (st : state) : state * result unit :=
  if embedder st then (st, Ok tt)
  else
    match await pipeline with
    | Ok _ => (mkState true (calls st ++ [LoadPipeline]), Ok tt)
    | Throw e => (mkState false (calls st ++ [LoadPipeline]), Throw e)
    end.

(** [generateEmbedding(text, dimensions)]; the default of [dimensions]
    is 384.  The [catch] block logs and rethrows. *)
Definition generateEmbedding (text : string) (dimensions : Z) (st : state)
  : state * result (list R) :=
  if falsy_string text then (st, Throw TextNotNonEmptyString)
  else
    let cleanedText := trim text in
    if (String.length cleanedText =? 0)%nat
    then (st, Throw TextEmptyAfterTrim)
    else
      let (st1, loaded) := initializeModel st in
      match loaded with
      | Throw e => (st1, Throw e)
      | Ok _ =>
          let st2 := mkState (embedder st1)
                             (calls st1 ++ [Infer cleanedText]) in
          match await (model cleanedText) with
          | Throw e => (st2, Throw e)
          | Ok data =>
              let embedding := data in
              let len := Z.of_nat (length embedding) in
              if (len =? dimensions)%Z then (st2, Ok embedding)
              else if (len <? dimensions)%Z
              then (st2, Ok (embedding
                               ++ zeros (Z.to_nat (dimensions - len))))
              else (st2, Ok (slice embedding dimensions))
          end
      end.

End Backend.

(** [cosineSimilarity] is written once, over the numbers and the
    operations it uses, and read in two arithmetics below. *)
Section Arithmetic.

Variable number : Type.
Variable zero : number.
Variables add mul div : number -> number -> number.
Variable sqrt : number -> number.
Variable equals_zero : number -> bool.     (* x === 0 *)

(** The loop of [cosineSimilarity]: [dotProduct], [norm1] and [norm2]
    after the remaining components. *)
Fixpoint accumulate (vec1 vec2 : list number) (dotProduct norm1 norm2 : number)
  : number * number * number :=
  match vec1, vec2 with
  | x :: vec1', y :: vec2' =>
      accumulate vec1' vec2'
        (add dotProduct (mul x y)) (add norm1 (mul x x)) (add norm2 (mul y y))
  | _, _ => (dotProduct, norm1, norm2)
  end.

(** [cosineSimilarity(vec1, vec2)]; [None] is a missing argument ([null]
    or [undefined]), which [!vec1] catches. *)
Definition cosineSimilarityWith (vec1 vec2 : option (list number))
  : result number :=
  match vec1, vec2 with
  | Some v1, Some v2 =>
      if negb (length v1 =? length v2)%nat then Throw VectorLengthMismatch
      else
        let '(dotProduct, norm1, norm2) := accumulate v1 v2 zero zero zero in
        let magnitude := mul (sqrt norm1) (sqrt norm2) in
        if equals_zero magnitude then Ok zero
        else Ok (div dotProduct magnitude)
  | _, _ => Throw VectorLengthMismatch
  end.

End Arithmetic.

(** [cosineSimilarity] in the exact arithmetic of the rest of the model. *)
Definition cosineSimilarity : option (list R) -> option (list R) -> result R :=
  cosineSimilarityWith R 0 Rplus Rmult Rdiv sqrt (fun x => Reqb x 0).

(** [cosineSimilarity] in the arithmetic of the runtime, IEEE 754 binary64
    with NaN and the infinities. *)
Definition cosineSimilarity64
  : option (list float) -> option (list float) -> result float :=
  cosineSimilarityWith float PrimFloat.zero PrimFloat.add PrimFloat.mul
    PrimFloat.div PrimFloat.sqrt (fun x => PrimFloat.eqb x PrimFloat.zero).

End EmbeddingService.

(** ** supabaseService.js *)

Module SupabaseService.
Import EmbeddingService.

(** [emb.vector] as the store delivers it: a native array (a JSON column),
    a text to parse (pgvector), or anything else ([null], a number, an
    object). *)
Inductive stored_vector : Type :=
| NativeArray (v : list R)
| Text (s : string)
| NotAVector.

(** A parsed JSON value, as far as [Array.isArray] tells them apart.  The
    elements of an array are numbers; an array that holds anything else
    (its similarity would be NaN, which no threshold lets through) is
    outside the model. *)
Inductive json : Type :=
| JArray (v : list R)
| JOther.

(** A row of the table [embeddings]; identifiers are integers here. *)
Record embedding_row : Type := mkRow {
  emb_id : Z;
  emb_problem_id : Z;
  emb_vector : stored_vector
}.

(** An element of [similarities] and of [topMatches]. *)
Record scored : Type := mkScored {
  problem_id : Z;
  similarity : R
}.

(** A row of the table [problems]; the columns the search only carries
    along ([tags], [created_at], [solutions]) are left out. *)
Record problem : Type := mkProblem {
  id : Z;
  title : string;
  description : string
}.

(** An element of the array [semanticSearch] returns.  A hit that another
    search function hands to [searchAllSources] may lack
    [relevance_score]. *)
Record hit : Type := mkHit {
  hit_problem : problem;
  hit_similarity : R;
  hit_relevance_score : option R
}.

(** [array.filter(s => s !== null)] *)
Fixpoint filter_not_null {A} (l : list (option A)) : list A :=
  match l with
  | [] => []
  | Some a :: l' => a :: filter_not_null l'
  | None :: l' => filter_not_null l'
  end.

(** [array.find(p)] *)
Fixpoint find_first {A} (p : A -> bool) (l : list A) : option A :=
  match l with
  | [] => None
  | a :: l' => if p a then Some a else find_first p l'
  end.

Section Search.

(** [JSON.parse]: [None] when it throws a [SyntaxError]. *)
Variable JSON_parse : string -> option json.

(** Step 3, the body of the [try] block of the callback of
    [embeddings.map]: [Ok None] is [return null]. *)
Definition rowSimilarity (queryEmbedding : list R) (emb : embedding_row)
  : result (option scored) :=
  let parsed :=
    match emb_vector emb with
    | Text s =>
        match JSON_parse s with
        | Some j => Ok j
        | None => Throw SyntaxError
        end
    | NativeArray v => Ok (JArray v)
    | NotAVector => Ok JOther
    end in
  match parsed with
  | Throw e => Throw e
  | Ok JOther => Ok None
  | Ok (JArray v) =>
      let dbVector :=
        if negb (length v =? length queryEmbedding)%nat
        then if (length v <? 384)%nat
             then v ++ zeros (384 - length v)
             else slice v 384
        else v in
      match cosineSimilarity (Some queryEmbedding) (Some dbVector) with
      | Throw e => Throw e
      | Ok s => Ok (Some (mkScored (emb_problem_id emb) s))
      end
  end.

(** The callback with its [catch] block, which returns [null]. *)
Definition rowSimilarityOrNull (queryEmbedding : list R)
  (emb : embedding_row) : option scored :=
  match rowSimilarity queryEmbedding emb with
  | Ok s => s
  | Throw _ => None
  end.

Definition similarities (queryEmbedding : list R)
  (embeddings : list embedding_row) : list scored :=
  filter_not_null (map (rowSimilarityOrNull queryEmbedding) embeddings).

(** Step 4: filter by the threshold, sort, cut. *)
Definition topMatches (similarities : list scored) (threshold : R)
  (limit : Z) : list scored :=
  slice
    (sort (fun a b => similarity b - similarity a)
          (filter (fun item => Rgeb (similarity item) threshold)
                  similarities))
    limit.

(** Step 6: the problems with their scores; a problem without a match
    makes [match.similarity] throw. *)
Fixpoint attachScores (topMatches : list scored) (problems : list problem)
  : result (list hit) :=
  match problems with
  | [] => Ok []
  | p :: problems' =>
      match find_first (fun m => (problem_id m =? id p)%Z) topMatches with
      | None => Throw TypeError
      | Some m =>
          match attachScores topMatches problems' with
          | Throw e => Throw e
          | Ok hits =>
              Ok (mkHit p (similarity m)
                        (Some (Math_round (similarity m * 100))) :: hits)
          end
      end
  end.

(** The transformer library and the store: the rows of [embeddings]
    ([None] for the [error] of the response; a response without data is
    the empty list) and the rows of [problems] with the given ids. *)
Variable pipeline : outcome unit.
Variable model : string -> outcome (list R).
Variable selectEmbeddings : option (list embedding_row).
Variable selectProblems : list Z -> option (list problem).

(** [semanticSearch(query, limit, threshold)]; the defaults are 5 and
    0.1. *)
Definition semanticSearch (query : string) (limit : Z) (threshold : R)
  (st : state) : state * result (list hit) :=
  if falsy_string query then (st, Throw QueryNotNonEmptyString)
  else
    let (st1, embedded) := generateEmbedding pipeline model query 384 st in
    match embedded with
    | Throw e => (st1, Throw e)
    | Ok queryEmbedding =>
        match selectEmbeddings with
        | None => (st1, Throw EmbeddingsFetchFailed)
        | Some [] => (st1, Ok [])
        | Some embeddings =>
            let top :=
              topMatches (similarities queryEmbedding embeddings)
                         threshold limit in
            match top with
            | [] => (st1, Ok [])
            | _ =>
                match selectProblems (map problem_id top) with
                | None => (st1, Throw ProblemsFetchFailed)
                | Some problems =>
                    match attachScores top problems with
                    | Throw e => (st1, Throw e)
                    | Ok results =>
                        (st1,
                         Ok (sort (fun a b =>
                                     hit_similarity b - hit_similarity a)
                                  results))
                    end
                end
            end
        end
    end.

End Search.

End SupabaseService.

(** ** externalSourcesService.js *)

Module ExternalSources.
Import SupabaseService.

(** The value of the field [source]. *)
Inductive source : Type := internal_db | stackoverflow | youtube.

(** The field [body] of an item of the Stack Exchange API: the text the
    filter [withbody] asks for, nothing (a missing field, or another
    falsy value than the empty text), or a truthy value that is not a
    string. *)
Inductive body : Type :=
| NoBody
| Body (text : string)
| NotText.

(** An element of [response.data.items] of the Stack Exchange API. *)
Record so_item : Type := mkSoItem {
  item_title : string;
  item_link : string;
  item_score : R;
  item_answer_count : R;
  item_view_count : R;
  item_is_answered : bool;
  item_accepted_answer_id : option Z;
  item_creation_date : R;         (* seconds since the epoch *)
  item_tags : list string;
  item_body : body
}.

(** A formatted Stack Overflow result. *)
Record so_result : Type := mkSoResult {
  so_source : source;
  so_title : string;
  so_link : string;
  so_score : R;
  so_answer_count : R;
  so_view_count : R;
  so_is_answered : bool;
  so_tags : list string;
  so_creation_date : string;
  so_excerpt : string;
  so_relevance_score : R
}.

(** An element of [response.data.items] of the YouTube API; [None] in
    [snippet_thumbnail] is a snippet without [thumbnails.medium]. *)
Record yt_item : Type := mkYtItem {
  id_videoId : string;
  snippet_title : string;
  snippet_description : string;
  snippet_channelTitle : string;
  snippet_thumbnail : option string
}.

Record yt_result : Type := mkYtResult {
  yt_source : source;
  yt_title : string;
  yt_description : string;
  yt_link : string;
  yt_video_id : string;
  yt_channel : string;
  yt_thumbnail : string
}.

(** [!!item.accepted_answer_id] *)
Definition truthy_id (i : option Z) : bool :=
  match i with
  | Some n => negb (n =? 0)%Z
  | None => false
  end.

(** [calculateStackOverflowRelevance(item)]; [now] is [Date.now()], in
    milliseconds. *)
Definition calculateStackOverflowRelevance (now : R) (item : so_item) : R :=
  let score := 0 in
  let score := score + item_score item * 5 in
  let score := score + item_answer_count item * 10 in
  let score := if item_is_answered item then score + 20 else score in
  let score :=
    if truthy_id (item_accepted_answer_id item) then score + 30
    else score in
  let score := score + Math_log10 (item_view_count item + 1) * 5 in
  let ageInDays :=
    (now - item_creation_date item * 1000) / (1000 * 60 * 60 * 24) in
  let score := if Rltb ageInDays 365 then score + 10 else score in
  Math_round score.

(** [text.replace(/<[^>]*>/g, '')]: every [<] that a [>] follows is
    removed with the text up to the first such [>].  [tag] is the text
    read since a [<] that no [>] has followed yet; it stays when none
    comes. *)
Fixpoint stripTags (tag : option string) (text : string) : string :=
  match text with
  | EmptyString =>
      match tag with
      | Some kept => kept
      | None => EmptyString
      end
  | String c text' =>
      match tag with
      | None =>
          if Ascii.eqb c "<" then stripTags (Some (String c EmptyString)) text'
          else String c (stripTags None text')
      | Some kept =>
          if Ascii.eqb c ">" then stripTags None text'
          else stripTags (Some (kept ++ String c EmptyString)%string) text'
      end
  end.

(** [item.body ? item.body.substring(0, 200).replace(/<[^>]*>/g, '')
    + '...' : ''] *)
Definition excerpt (b : body) : result string :=
  match b with
  | NoBody => Ok EmptyString
  | Body EmptyString => Ok EmptyString
  | Body text => Ok (stripTags None (substring 0 200 text) ++ "...")%string
  | NotText => Throw TypeError
  end.

(** The callback of [items.map] of [searchStackOverflow].  Two of its
    fields can throw: the date of an item whose [creation_date] is out of
    the range of dates, and the excerpt of a body that is not a string. *)
Definition formatStackOverflow (now : R) (toISOString : Z -> string)
  (item : so_item) : result so_result :=
  match Date_toISOString toISOString (item_creation_date item * 1000) with
  | Throw e => Throw e
  | Ok creation_date =>
      match excerpt (item_body item) with
      | Throw e => Throw e
      | Ok text =>
          Ok (mkSoResult stackoverflow (item_title item) (item_link item)
                (item_score item) (item_answer_count item)
                (item_view_count item) (item_is_answered item)
                (item_tags item) creation_date text
                (calculateStackOverflowRelevance now item))
      end
  end.

(** [items.map(callback)] for a callback that may throw: the first throw
    ends the loop. *)
Fixpoint mapResult {A B} (f : A -> result B) (l : list A) : result (list B) :=
  match l with
  | [] => Ok []
  | a :: l' =>
      match f a with
      | Throw e => Throw e
      | Ok b =>
          match mapResult f l' with
          | Throw e => Throw e
          | Ok bs => Ok (b :: bs)
          end
      end
  end.

(** [searchStackOverflow(query, limit)].  [get] is the answer of
    [axios.get] to the request for [query] and [limit]: a failure (time
    out, status outside 2xx), or [response.data.items], [None] when
    [data] or [items] is missing.  Every exception ends in [return []],
    also one thrown while an item is formatted. *)
Definition searchStackOverflow (now : R) (toISOString : Z -> string)
  (get : string -> Z -> outcome (option (list so_item)))
  (query : string) (limit : Z) : list so_result :=
  let attempt : result (list so_result) :=
    if falsy_string query then Throw QueryNotNonEmptyString
    else
      match await (get query limit) with
      | Throw e => Throw e
      | Ok None => Ok []
      | Ok (Some items) =>
          match mapResult (formatStackOverflow now toISOString) items with
          | Throw e => Throw e
          | Ok results =>
              Ok (sort (fun a b =>
                          so_relevance_score b - so_relevance_score a)
                       results)
          end
      end in
  match attempt with
  | Ok results => results
  | Throw _ => []
  end.

(** The callback of [items.map] of [searchYouTube]; reading
    [thumbnails.medium.url] of a snippet without it throws. *)
Definition formatYouTube (item : yt_item) : result yt_result :=
  match snippet_thumbnail item with
  | None => Throw TypeError
  | Some url =>
      Ok (mkYtResult youtube (snippet_title item) (snippet_description item)
            ("https://www.youtube.com/watch?v=" ++ id_videoId item)%string
            (id_videoId item) (snippet_channelTitle item) url)
  end.

(** [searchYouTube(query, limit)]; [YOUTUBE_API_KEY] is the environment
    variable, [None] when it is not set. *)
Definition searchYouTube (YOUTUBE_API_KEY : option string)
  (get : string -> Z -> outcome (option (list yt_item)))
  (query : string) (limit : Z) : list yt_result :=
  let attempt : result (list yt_result) :=
    if falsy_string query then Throw QueryNotNonEmptyString
    else
      match YOUTUBE_API_KEY with
      | None => Ok []
      | Some EmptyString => Ok []
      | Some _ =>
          match await (get query limit) with
          | Throw e => Throw e
          | Ok None => Ok []
          | Ok (Some items) => mapResult formatYouTube items
          end
      end in
  match attempt with
  | Ok results => results
  | Throw _ => []
  end.

(** An element of [all] and of [top_results]: the item it spreads, the
    field [source] it ends up with, and [rank_score]. *)
Inductive candidate : Type :=
| Internal (item : hit)
| StackOverflow (item : so_result)
| YouTube (item : yt_result).

Record ranked : Type := mkRanked {
  entry : candidate;
  entry_source : source;
  rank_score : R
}.

(** [item.relevance_score || item.similarity * 100]: a missing or zero
    [relevance_score] is falsy. *)
Definition relevance_or_similarity (item : hit) : R :=
  match hit_relevance_score item with
  | Some r => if Reqb r 0 then hit_similarity item * 100 else r
  | None => hit_similarity item * 100
  end.

(** The array [all] of [combineAndRankResults] before it is sorted: the
    three [forEach] loops push the internal hits, then the Stack Overflow
    results, then the YouTube results. *)
Definition all_candidates (internal : list hit)
  (stackoverflow : list so_result) (youtube : list yt_result)
  : list ranked :=
  map (fun item =>
         mkRanked (Internal item) internal_db
                  (relevance_or_similarity item + 100)) internal
  ++ map (fun item =>
            mkRanked (StackOverflow item) (so_source item)
                     (so_relevance_score item)) stackoverflow
  ++ map (fun item =>
            mkRanked (YouTube item) (yt_source item) 30) youtube.

(** [combineAndRankResults(internal, stackoverflow, youtube)] *)
Definition combineAndRankResults (internal : list hit)
  (stackoverflow : list so_result) (youtube : list yt_result)
  : list ranked :=
  let all := all_candidates internal stackoverflow youtube in
  slice (sort (fun a b => rank_score b - rank_score a) all) 10.

(** The third argument of [searchAllSources]. *)
Record options : Type := mkOptions {
  internalLimit : Z;
  stackOverflowLimit : Z;
  youtubeLimit : Z
}.

Definition default_options : options := mkOptions 5 3 2.

Record source_results (A : Type) : Type := mkSourceResults {
  count : nat;
  results : list A
}.
Arguments mkSourceResults {A} count results.
Arguments count {A} s.
Arguments results {A} s.

Record sources : Type := mkSources {
  sources_internal : source_results (hit * source);
  sources_stackoverflow : source_results so_result;
  sources_youtube : source_results yt_result
}.

(** The object [searchAllSources] returns. *)
Record combined : Type := mkCombined {
  combined_query : string;
  timestamp : string;
  total_results : nat;
  combined_sources : sources;
  top_results : list ranked
}.

(** [status === 'fulfilled' ? value : []] *)
Definition valueOrEmpty {A} (s : settled (list A)) : list A :=
  match s with
  | Fulfilled value => value
  | Rejected _ => []
  end.

(** [searchAllSources(query, supabaseSearchFn, options)].  The three
    searches are started, and [Promise.allSettled] waits for the three
    outcomes.  The two adapters are [async] functions that return an
    array whatever happens, so their promises are fulfilled; the promise
    of [supabaseSearchFn] may be rejected.  [now_iso] is
    [new Date().toISOString()]. *)
Definition searchAllSources (now : R) (now_iso : string)
  (toISOString : Z -> string) (YOUTUBE_API_KEY : option string)
  (getStackOverflow : string -> Z -> outcome (option (list so_item)))
  (getYouTube : string -> Z -> outcome (option (list yt_item)))
  (query : string)
  (supabaseSearchFn : string -> Z -> result (list hit))
  (opts : options) : result combined :=
  if falsy_string query then Throw QueryNotNonEmptyString
  else
    let internalResults :=
      settle (supabaseSearchFn query (internalLimit opts)) in
    let stackOverflowResults :=
      Fulfilled (searchStackOverflow now toISOString getStackOverflow query
                   (stackOverflowLimit opts)) in
    let youtubeResults :=
      Fulfilled (searchYouTube YOUTUBE_API_KEY getYouTube query
                   (youtubeLimit opts)) in
    let internal := valueOrEmpty internalResults in
    let stackoverflow := valueOrEmpty stackOverflowResults in
    let youtube := valueOrEmpty youtubeResults in
    Ok (mkCombined query now_iso
          (length internal + length stackoverflow + length youtube)
          (mkSources
             (mkSourceResults (length internal)
                (map (fun item => (item, internal_db)) internal))
             (mkSourceResults (length stackoverflow) stackoverflow)
             (mkSourceResults (length youtube) youtube))
          (combineAndRankResults internal stackoverflow youtube)).

End ExternalSources.

(** ** The notions of the specification *)

Module Spec.
Import EmbeddingService SupabaseService.

(** The embedding dimension [D]. *)
Definition D : nat := 384.

(** [dot(a, b)], summed from the first component on, over any
    arithmetic. *)
Fixpoint dot_from {number : Type} (add mul : number -> number -> number)
  (acc : number) (a b : list number) : number :=
  match a, b with
  | x :: a', y :: b' => dot_from add mul (add acc (mul x y)) a' b'
  | _, _ => acc
  end.

(** The dot product and the L2 norm in exact arithmetic. *)
Definition dot (a b : list R) : R := dot_from Rplus Rmult 0 a b.

Definition norm (a : list R) : R := sqrt (dot a a).

(** A vector of zero magnitude: all components zero. *)
Definition zero_vector (a : list R) : Prop := Forall (fun x => x = 0) a.

(** The same in binary64, where a zero is [+0] or [-0]. *)
Definition dot64 (a b : list float) : float :=
  dot_from PrimFloat.add PrimFloat.mul PrimFloat.zero a b.

Definition norm64 (a : list float) : float := PrimFloat.sqrt (dot64 a a).

Definition zero_vector64 (a : list float) : Prop :=
  Forall (fun x => x = PrimFloat.zero \/ x = PrimFloat.neg_zero) a.

(** The numeric array a stored vector stands for, if any: a native array,
    or a text that parses as an array. *)
Definition array_of (JSON_parse : string -> option json)
  (v : stored_vector) : option (list R) :=
  match v with
  | NativeArray a => Some a
  | Text s =>
      match JSON_parse s with
      | Some (JArray a) => Some a
      | _ => None
      end
  | NotAVector => None
  end.

Definition well_formed (JSON_parse : string -> option json)
  (emb : embedding_row) : bool :=
  match array_of JSON_parse (emb_vector emb) with
  | Some _ => true
  | None => false
  end.

(** A vector padded with zeros or truncated to [d] components. *)
Definition repaired_to (d : nat) (v : list R) : list R :=
  if (length v <? d)%nat then v ++ repeat 0 (d - length v)
  else firstn d v.

Definition repaired (v : list R) : list R := repaired_to D v.

(** The state of the encoder after a successful call: the pipeline is
    loaded if it was not, then the inference is run. *)
Definition after_embedding (st : state) (cleanedText : string) : state :=
  mkState true
    (calls st ++ (if embedder st then [] else [LoadPipeline])
     ++ [Infer cleanedText]).

(** One year, in milliseconds. *)
Definition one_year_ms : R := 365 * 24 * 60 * 60 * 1000.

(** A text that holds the character [c]. *)
Definition holds (c : ascii) (s : string) : Prop :=
  exists a b, s = (a ++ String c b)%string.

(** A text with a tag left in it: a [<] that a [>] follows. *)
Definition has_tag (s : string) : Prop :=
  exists a b c, s = (a ++ String "<" (b ++ String ">" c))%string.

(** A Stack Overflow item that cannot be formatted: its date is out of
    the range of dates, or its body is not a text. *)
Definition broken (item : ExternalSources.so_item) : Prop :=
  8640000000000000 < Rabs (ExternalSources.item_creation_date item * 1000)
  \/ ExternalSources.item_body item = ExternalSources.NotText.

End Spec.

(** ** embeddingService.js: the batch, the preload and the model info *)

Module EmbeddingBatch.
Import EmbeddingService.

(** The object [getModelInfo] returns. *)
Record model_info : Type := mkModelInfo {
  info_name : string;
  info_dimensions : Z;
  info_maxTokens : Z;
  info_loaded : bool
}.

Definition getModelInfo (st : state) : model_info :=
  mkModelInfo "all-MiniLM-L6-v2" 384 256 (embedder st).

Section Backend.

Variable pipeline : outcome unit.
Variable model : string -> outcome (list R).

(** The loop of [generateEmbeddingsBatch]: [embeddings] holds what was
    pushed so far; the first text that fails ends the batch. *)
Fixpoint embedEach (texts : list string) (dimensions : Z) (st : state)
  (embeddings : list (list R)) : state * result (list (list R)) :=
  match texts with
  | [] => (st, Ok embeddings)
  | text :: texts' =>
      let (st1, embedded) :=
        generateEmbedding pipeline model text dimensions st in
      match embedded with
      | Throw e => (st1, Throw e)
      | Ok embedding =>
          embedEach texts' dimensions st1 (embeddings ++ [embedding])
      end
  end.

(** [generateEmbeddingsBatch(texts, dimensions)] *)
Definition generateEmbeddingsBatch (texts : list string) (dimensions : Z)
  (st : state) : state * result (list (list R)) :=
  embedEach texts dimensions st [].

(** [preloadModel()]: a failure of the load is logged and dropped. *)
Definition preloadModel (st : state) : state :=
  fst (initializeModel pipeline st).

End Backend.

End EmbeddingBatch.

(** ** externalSourcesService.js: the links of a combined search *)

Module Links.
Import SupabaseService ExternalSources.

(** A solution joined to a problem; [None] is a [source] that is [null]. *)
Record solution : Type := mkSolution {
  solution_description : string;
  solution_source : option string
}.

(** [[...new Set(links)]]: every link once, at the place of its first
    occurrence; [seen] holds the links met so far. *)
Fixpoint unique (seen links : list string) : list string :=
  match links with
  | [] => []
  | link :: links' =>
      if existsb (String.eqb link) seen then unique seen links'
      else link :: unique (link :: seen) links'
  end.

Section Solutions.

(** The column [solutions] of an internal result, which [problem] leaves
    out; [None] when the item has no such field. *)
Variable solutions : hit -> option (list solution).

(** The first loop of [extractAllLinks]: the truthy sources of the
    solutions of the internal results. *)
Definition internalLinks (items : list (hit * source)) : list string :=
  flat_map
    (fun item =>
       match solutions (fst item) with
       | Some (sol :: sols) =>
           flat_map
             (fun sol =>
                match solution_source sol with
                | Some link => if falsy_string link then [] else [link]
                | None => []
                end)
             (sol :: sols)
       | _ => []
       end)
    items.

(** [extractAllLinks(searchResults)] *)
Definition extractAllLinks (searchResults : combined) : list string :=
  let found := combined_sources searchResults in
  let links :=
    internalLinks (results (sources_internal found))
    ++ map so_link (results (sources_stackoverflow found))
    ++ map yt_link (results (sources_youtube found)) in
  unique [] links.

End Solutions.

End Links.

(** ** supabaseService.js: creating and updating problems *)

Module ProblemStore.
Import EmbeddingService SupabaseService.

(** A text that holds white space only (or nothing). *)
Fixpoint blank (s : string) : bool :=
  match s with
  | EmptyString => true
  | String c s' => is_white_space c && blank s'
  end.

(** The errors of the functions below; the comments give the message.
    [Encoder] is an error [generateEmbedding] threw. *)
Inductive service_error : Type :=
| TitleAndDescriptionRequired  (* Titel und Beschreibung sind erforderlich *)
| InsertProblemFailed          (* Fehler beim Einfuegen des Problems *)
| ProblemIdRequired            (* Problem-ID ist erforderlich *)
| NoUpdateData                 (* Keine Daten zum Aktualisieren angegeben *)
| UpdateProblemFailed          (* Fehler beim Aktualisieren des Problems *)
| ProblemNotFound              (* Problem nicht gefunden *)
| UpsertEmbeddingFailed        (* Fehler beim Aktualisieren des Embeddings *)
| Encoder (e : error).

Inductive reply (A : Type) : Type :=
| Done (a : A)
| Raised (e : service_error).
Arguments Done {A} a.
Arguments Raised {A} e.

(** [updateData] and [cleanData]: a field is there or not. *)
Record update_data : Type := mkUpdate {
  update_title : option string;
  update_description : option string;
  update_tags : option (list string)
}.

(** A request sent to the store. *)
Inductive request : Type :=
| InsertProblem (title description : string) (tags : list string)
| InsertEmbedding (problem_id : Z) (vector : list R)
| SelectProblem (problem_id : Z)
| UpsertEmbedding (problem_id : Z) (vector : list R)
| UpdateProblem (problem_id : Z) (cleanData : update_data).

(** The state of the encoder and the requests sent so far, oldest first. *)
Record world : Type := mkWorld {
  encoder : state;
  requests : list request
}.

(** What [addProblemWithEmbedding] and [updateProblem] return: the row and
    the flag they add; [embedding_updated] is missing when no embedding
    was regenerated. *)
Record created : Type := mkCreated {
  created_problem : problem;
  embedding_created : bool
}.

Record updated : Type := mkUpdated {
  updated_problem : problem;
  embedding_updated : option bool
}.

Section Store.

Variable pipeline : outcome unit.
Variable model : string -> outcome (list R).

(** The answers of the store: the row of an insert, a select or an update
    or an upsert ([None] when the response carries an error), and whether
    the insert of an embedding went through. *)
Variable insertProblem : string -> string -> list string -> option problem.
Variable insertEmbedding : Z -> list R -> bool.
Variable selectProblem : Z -> option problem.
Variable upsertEmbedding : Z -> list R -> option embedding_row.
Variable updateProblemRow : Z -> update_data -> option problem.

(** [addProblemWithEmbedding({ title, description, tags })], for a title
    and a description that are strings. *)
Definition addProblemWithEmbedding (title description : string)
  (tags : list string) (w : world) : world * reply created :=
  if falsy_string title || falsy_string description
  then (w, Raised TitleAndDescriptionRequired)
  else
    let w1 :=
      mkWorld (encoder w)
        (requests w ++ [InsertProblem (trim title) (trim description) tags]) in
    match insertProblem (trim title) (trim description) tags with
    | None => (w1, Raised InsertProblemFailed)
    | Some problem =>
        let textForEmbedding := (title ++ " " ++ description)%string in
        let (st, embedded) :=
          generateEmbedding pipeline model textForEmbedding 384 (encoder w1) in
        match embedded with
        | Throw e => (mkWorld st (requests w1), Raised (Encoder e))
        | Ok embedding =>
            let w2 :=
              mkWorld st
                (requests w1 ++ [InsertEmbedding (id problem) embedding]) in
            (w2, Done (mkCreated problem
                         (insertEmbedding (id problem) embedding)))
        end
    end.

(** [updateEmbedding(problemId)]; it returns the row the store answers. *)
Definition updateEmbedding (problemId : Z) (w : world)
  : world * reply embedding_row :=
  let w1 := mkWorld (encoder w) (requests w ++ [SelectProblem problemId]) in
  match selectProblem problemId with
  | None => (w1, Raised ProblemNotFound)
  | Some problem =>
      let textForEmbedding :=
        (title problem ++ " " ++ description problem)%string in
      let (st, embedded) :=
        generateEmbedding pipeline model textForEmbedding 384 (encoder w1) in
      match embedded with
      | Throw e => (mkWorld st (requests w1), Raised (Encoder e))
      | Ok embedding =>
          let w2 :=
            mkWorld st (requests w1 ++ [UpsertEmbedding problemId embedding]) in
          match upsertEmbedding problemId embedding with
          | Some data => (w2, Done data)
          | None => (w2, Raised UpsertEmbeddingFailed)
          end
      end
  end.

(** [if (updateData.title)]: the field is there and not empty. *)
Definition truthy_text (field : option string) : bool :=
  match field with
  | Some s => negb (falsy_string s)
  | None => false
  end.

Definition cleaned (updateData : update_data) : update_data :=
  mkUpdate
    (if truthy_text (update_title updateData)
     then option_map trim (update_title updateData) else None)
    (if truthy_text (update_description updateData)
     then option_map trim (update_description updateData) else None)
    (update_tags updateData).

(** [Object.keys(cleanData).length === 0] *)
Definition no_keys (cleanData : update_data) : bool :=
  match update_title cleanData, update_description cleanData,
        update_tags cleanData with
  | None, None, None => true
  | _, _, _ => false
  end.

(** [updateProblem(problemId, updateData, regenerateEmbedding)]; [None] is
    a [problemId] that is missing or falsy. *)
Definition updateProblem (problemId : option Z) (updateData : update_data)
  (regenerateEmbedding : bool) (w : world) : world * reply updated :=
  match problemId with
  | None => (w, Raised ProblemIdRequired)
  | Some problemId =>
      let cleanData := cleaned updateData in
      if no_keys cleanData then (w, Raised NoUpdateData)
      else
        let w1 :=
          mkWorld (encoder w)
            (requests w ++ [UpdateProblem problemId cleanData]) in
        match updateProblemRow problemId cleanData with
        | None => (w1, Raised UpdateProblemFailed)
        | Some problem =>
            if regenerateEmbedding
               && (truthy_text (update_title updateData)
                   || truthy_text (update_description updateData))
            then
              let (w2, refreshed) := updateEmbedding problemId w1 in
              match refreshed with
              | Done _ => (w2, Done (mkUpdated problem (Some true)))
              | Raised _ => (w2, Done (mkUpdated problem (Some false)))
              end
            else (w1, Done (mkUpdated problem None))
        end
  end.

End Store.

End ProblemStore.

(** ** middleware/validation.js *)

Module Validation.

(** A value of a request body. *)
Inductive value : Type :=
| VUndefined
| VNull
| VBoolean (b : bool)
| VNumber (x : R)
| VString (s : string)
| VArray                 (* an array, whatever it holds *)
| VObject.

(** [!v] is [negb (truthy v)]. *)
Definition truthy (v : value) : bool :=
  match v with
  | VUndefined | VNull => false
  | VBoolean b => b
  | VNumber x => negb (Reqb x 0)
  | VString s => negb (falsy_string s)
  | VArray | VObject => true
  end.

(** The messages pushed on [errors]. *)
Inductive issue : Type :=
| TitleRequired | TitleNotString | TitleEmpty | TitleTooLong
| DescriptionRequired | DescriptionNotString | DescriptionEmpty
| TagsNotArrayOrString
| QueryRequired | QueryNotString | QueryEmpty | QueryTooLong
| LimitOutOfRange | ThresholdOutOfRange.

(** A middleware calls [next()] or throws an [ApiError]. *)
Inductive verdict : Type :=
| Next
| ApiError (statusCode : Z) (details : list issue).

Definition conclude (errors : list issue) : verdict :=
  match errors with
  | [] => Next
  | _ :: _ => ApiError 400 errors
  end.

Record problem_body : Type := mkProblemBody {
  body_title : value;
  body_description : value;
  body_tags : value
}.

(** [validateProblem(req, res, next)], on [req.body]. *)
Definition validateProblem (body : problem_body) : verdict :=
  let errors := [] in
  let errors :=
    if negb (truthy (body_title body)) then errors ++ [TitleRequired]
    else match body_title body with
         | VString title =>
             if (String.length (trim title) =? 0)%nat
             then errors ++ [TitleEmpty]
             else if (255 <? String.length title)%nat
                  then errors ++ [TitleTooLong]
                  else errors
         | _ => errors ++ [TitleNotString]
         end in
  let errors :=
    if negb (truthy (body_description body))
    then errors ++ [DescriptionRequired]
    else match body_description body with
         | VString description =>
             if (String.length (trim description) =? 0)%nat
             then errors ++ [DescriptionEmpty]
             else errors
         | _ => errors ++ [DescriptionNotString]
         end in
  let errors :=
    match body_tags body with
    | VUndefined | VNull | VArray | VString _ => errors
    | _ => errors ++ [TagsNotArrayOrString]
    end in
  conclude errors.

Record search_body : Type := mkSearchBody {
  body_query : value;
  body_limit : value;
  body_threshold : value
}.

Section Parsing.

(** [parseInt] and [parseFloat]; [None] is NaN. *)
Variable parseInt : value -> option Z.
Variable parseFloat : value -> option R.

(** [validateSearchParams(req, res, next)], on [req.body]. *)
Definition validateSearchParams (body : search_body) : verdict :=
  let errors := [] in
  let errors :=
    if negb (truthy (body_query body)) then errors ++ [QueryRequired]
    else match body_query body with
         | VString query =>
             if (String.length (trim query) =? 0)%nat
             then errors ++ [QueryEmpty]
             else if (500 <? String.length query)%nat
                  then errors ++ [QueryTooLong]
                  else errors
         | _ => errors ++ [QueryNotString]
         end in
  let errors :=
    match body_limit body with
    | VUndefined => errors
    | limit =>
        match parseInt limit with
        | None => errors ++ [LimitOutOfRange]
        | Some limitNum =>
            if (limitNum <=? 0)%Z || (100 <? limitNum)%Z
            then errors ++ [LimitOutOfRange]
            else errors
        end
    end in
  let errors :=
    match body_threshold body with
    | VUndefined => errors
    | threshold =>
        match parseFloat threshold with
        | None => errors ++ [ThresholdOutOfRange]
        | Some thresholdNum =>
            if Rltb thresholdNum 0 || Rltb 1 thresholdNum
            then errors ++ [ThresholdOutOfRange]
            else errors
        end
    end in
  conclude errors.

End Parsing.

End Validation.

(** * Properties *)

(** ** Arrays: [slice] and [sort] *)

Section ArrayFacts.

Context {A : Type}.

Lemma slice_firstn (l : list A) (e : Z) :
  (0 <= e)%Z -> slice l e = firstn (Z.to_nat e) l.
Proof.
  intros He. unfold slice.
  destruct (e <? 0)%Z eqn:Hneg; [apply Z.ltb_lt in Hneg; lia|].
  destruct (Z.le_ge_cases e (Z.of_nat (length l))) as [Hle | Hge].
  - now rewrite Z.min_l.
  - rewrite Z.min_r, Nat2Z.id by assumption.
    rewrite !firstn_all2; trivial; lia.
Qed.

Lemma slice_length (l : list A) (e : Z) :
  (0 <= e)%Z -> length (slice l e) = Nat.min (Z.to_nat e) (length l).
Proof.
  intros He. rewrite slice_firstn by assumption. apply length_firstn.
Qed.

Lemma slice_prefix (l : list A) (e : Z) :
  exists rest, l = slice l e ++ rest.
Proof.
  unfold slice. eexists. symmetry. apply firstn_skipn.
Qed.

Lemma slice_In (l : list A) (e : Z) (a : A) : In a (slice l e) -> In a l.
Proof.
  destruct (slice_prefix l e) as [rest Hrest]. intros Hin.
  rewrite Hrest. apply in_or_app. now left.
Qed.

Lemma StronglySorted_prefix (P : A -> A -> Prop) (l rest : list A) :
  StronglySorted P (l ++ rest) -> StronglySorted P l.
Proof.
  induction l as [| a l IH]; intros Hs; [constructor|].
  inversion Hs as [| ? ? Hs' Hall]; subst.
  constructor; [now apply IH|].
  apply Forall_app in Hall. tauto.
Qed.

Lemma StronglySorted_split (P : A -> A -> Prop) (l rest : list A) :
  StronglySorted P (l ++ rest) ->
  forall a b, In a l -> In b rest -> P a b.
Proof.
  induction l as [| x l IH]; intros Hs a b Ha Hb; [easy|].
  inversion Hs as [| ? ? Hs' Hall]; subst.
  destruct Ha as [<- | Ha].
  - rewrite Forall_forall in Hall. apply Hall, in_or_app. now right.
  - now apply IH.
Qed.

Variable key : A -> R.

Local Abbreviation by_key_desc := (by_key_desc key).
Local Abbreviation descending := (descending key).

Lemma insert_perm (x : A) (l : list A) :
  Permutation (insert by_key_desc x l) (x :: l).
Proof.
  induction l as [| y l IH]; simpl; [reflexivity|].
  destruct (Rlt_dec 0 (by_key_desc x y)); [|reflexivity].
  rewrite IH. apply perm_swap.
Qed.

Lemma sort_perm (l : list A) : Permutation (sort by_key_desc l) l.
Proof.
  induction l as [| x l IH]; simpl; [reflexivity|].
  unfold sort in IH. rewrite insert_perm. now constructor.
Qed.

Lemma sort_length (l : list A) : length (sort by_key_desc l) = length l.
Proof. apply Permutation_length, sort_perm. Qed.

Lemma insert_sorted (x : A) (l : list A) :
  StronglySorted descending l ->
  StronglySorted descending (insert by_key_desc x l).
Proof.
  induction 1 as [| y l Hl IH Hy]; simpl.
  - repeat constructor.
  - unfold JS.by_key_desc at 1.
    destruct (Rlt_dec 0 (key y - key x)) as [Hlt | Hge].
    + constructor; [assumption|].
      apply Forall_forall. intros z Hz.
      apply (Permutation_in _ (insert_perm x l)) in Hz.
      destruct Hz as [<- | Hz].
      * unfold JS.descending. lra.
      * rewrite Forall_forall in Hy. now apply Hy.
    + constructor; [now constructor|].
      constructor; [unfold JS.descending; lra|].
      eapply Forall_impl; [|exact Hy].
      unfold JS.descending. intros z Hz. lra.
Qed.

Lemma sort_sorted (l : list A) :
  StronglySorted descending (sort by_key_desc l).
Proof.
  induction l as [| x l IH]; simpl; [constructor|].
  now apply insert_sorted.
Qed.

(** Stability: the elements of one key keep their order. *)
Lemma insert_stable (v : R) (x : A) (l : list A) :
  filter (fun a => Reqb (key a) v) (insert by_key_desc x l)
  = filter (fun a => Reqb (key a) v) (x :: l).
Proof.
  induction l as [| y l IH]; [reflexivity|].
  cbn [insert]. unfold JS.by_key_desc at 1.
  destruct (Rlt_dec 0 (key y - key x)) as [Hlt | Hge]; [|reflexivity].
  cbn [filter] in *. rewrite IH.
  unfold Reqb.
  destruct (Req_dec_T (key y) v), (Req_dec_T (key x) v);
    try reflexivity; lra.
Qed.

Lemma sort_stable (v : R) (l : list A) :
  filter (fun a => Reqb (key a) v) (sort by_key_desc l)
  = filter (fun a => Reqb (key a) v) l.
Proof.
  induction l as [| x l IH]; [reflexivity|].
  cbn [sort fold_right]. rewrite insert_stable.
  cbn [filter]. unfold sort in IH. now rewrite IH.
Qed.

End ArrayFacts.

Lemma Rgeb_true (x y : R) : Rgeb x y = true <-> y <= x.
Proof. unfold Rgeb. destruct (Rle_dec y x); split; intros; try easy. Qed.

Lemma Rltb_true (x y : R) : Rltb x y = true <-> x < y.
Proof. unfold Rltb. destruct (Rlt_dec x y); split; intros; try easy. Qed.

Lemma Reqb_true (x y : R) : Reqb x y = true <-> x = y.
Proof. unfold Reqb. destruct (Req_dec_T x y); split; intros; try easy. Qed.

(** Evaluation of the comparisons of a closed term. *)
Ltac decide_R :=
  repeat (cbn;
          match goal with
          | |- context [Rle_dec ?a ?b] => destruct (Rle_dec a b); try lra
          | |- context [Rlt_dec ?a ?b] => destruct (Rlt_dec a b); try lra
          | |- context [Req_dec_T ?a ?b] => destruct (Req_dec_T a b); try lra
          end).

(** ** The ranking step of [semanticSearch] *)

Import EmbeddingService SupabaseService ExternalSources Spec.

(** C3 for a limit that is not negative: [topMatches] is the first
    [limit] entries of the candidates with [similarity >= threshold] (all
    of them, and no other), in descending order of similarity, candidates
    of one similarity in their input order.  It has at most [limit]
    entries, none of a similarity below the threshold. *)
Theorem topMatches_ranking :
  forall (sims : list scored) (threshold : R) (limit : Z),
    (0 <= limit)%Z ->
    let survivors := filter (fun m => Rgeb (similarity m) threshold) sims in
    let top := topMatches sims threshold limit in
    (forall m, In m survivors <-> In m sims /\ threshold <= similarity m) /\
    (exists ordered,
        Permutation ordered survivors /\
        StronglySorted (descending similarity) ordered /\
        (forall v, filter (fun m => Reqb (similarity m) v) ordered
                   = filter (fun m => Reqb (similarity m) v) survivors) /\
        top = firstn (Z.to_nat limit) ordered) /\
    StronglySorted (descending similarity) top /\
    (Z.of_nat (length top) <= limit)%Z /\
    length top = Nat.min (Z.to_nat limit) (length survivors) /\
    (forall m, In m top -> In m sims /\ ~ similarity m < threshold).
Proof.
  intros sims threshold limit Hlimit survivors top.
  assert (Hsurv : forall m,
             In m survivors <-> In m sims /\ threshold <= similarity m).
  { intros m. unfold survivors. rewrite filter_In, Rgeb_true. reflexivity. }
  assert (Htop : top = firstn (Z.to_nat limit)
                         (sort (by_key_desc similarity) survivors)).
  { unfold top, topMatches. now rewrite slice_firstn. }
  assert (Hlen : length top = Nat.min (Z.to_nat limit) (length survivors)).
  { rewrite Htop, length_firstn. now rewrite sort_length. }
  split; [exact Hsurv|].
  split.
  { exists (sort (by_key_desc similarity) survivors).
    repeat split.
    - apply sort_perm.
    - apply sort_sorted.
    - intros v. apply sort_stable.
    - exact Htop. }
  split.
  { rewrite Htop.
    pose proof (sort_sorted similarity survivors) as Hsorted.
    rewrite <- (firstn_skipn (Z.to_nat limit)) in Hsorted.
    now apply StronglySorted_prefix in Hsorted. }
  split; [lia|].
  split; [exact Hlen|].
  intros m Hm. apply slice_In in Hm.
  apply (Permutation_in _ (sort_perm similarity survivors)) in Hm.
  apply Hsurv in Hm. split; [tauto|lra].
Qed.

(** The theorem at three candidates, a threshold of 0.5 and a limit of 2. *)
Lemma topMatches_ranking_witness :
  let sims := [mkScored 1 1; mkScored 2 0; mkScored 3 (9 / 10)] in
  (0 <= 2)%Z /\
  (Z.of_nat (length (topMatches sims (1 / 2) 2)) <= 2)%Z.
Proof.
  intros sims. split; [lia|].
  apply (topMatches_ranking sims (1 / 2) 2). lia.
Defined.

(** Three subjects of similarity 1, 0 and 0.9, a threshold of 0.5 and a
    limit of 2: the first and the third are returned, in that order. *)
Example topMatches_three_subjects :
  topMatches [mkScored 1 1; mkScored 2 0; mkScored 3 (9 / 10)] (1 / 2) 2
  = [mkScored 1 1; mkScored 3 (9 / 10)].
Proof.
  unfold topMatches, Rgeb, slice, sort. decide_R. reflexivity.
Qed.

(** The ranking step at a limit of -1: [slice] drops the last of three
    ranked candidates and two are returned. *)
Lemma topMatches_negative_limit :
  let sims := [mkScored 1 (9 / 10); mkScored 2 (8 / 10); mkScored 3 (7 / 10)] in
  topMatches sims (1 / 10) (-1)
  = [mkScored 1 (9 / 10); mkScored 2 (8 / 10)] /\
  ~ (Z.of_nat (length (topMatches sims (1 / 10) (-1))) <= -1)%Z.
Proof.
  intros sims.
  assert (H : topMatches sims (1 / 10) (-1)
              = [mkScored 1 (9 / 10); mkScored 2 (8 / 10)]).
  { unfold topMatches, sims, Rgeb, slice, sort. decide_R. reflexivity. }
  split; [exact H|]. rewrite H. simpl. lia.
Qed.

(** ** Rank fusion: [combineAndRankResults] *)

Lemma all_candidates_entries internal stackoverflow youtube :
  map entry (all_candidates internal stackoverflow youtube)
  = map Internal internal ++ map StackOverflow stackoverflow
    ++ map YouTube youtube.
Proof.
  unfold all_candidates. rewrite !map_app, !map_map. reflexivity.
Qed.

Lemma all_candidates_scores internal stackoverflow youtube r :
  In r (all_candidates internal stackoverflow youtube) ->
  match entry r with
  | Internal item =>
      In item internal /\ entry_source r = internal_db /\
      rank_score r = relevance_or_similarity item + 100
  | StackOverflow item =>
      In item stackoverflow /\ rank_score r = so_relevance_score item
  | YouTube item => In item youtube /\ rank_score r = 30
  end.
Proof.
  unfold all_candidates. rewrite !in_app_iff, !in_map_iff.
  intros [[item [<- Hin]] | [[item [<- Hin]] | [item [<- Hin]]]];
    simpl; auto.
Qed.

Lemma all_candidates_length internal stackoverflow youtube :
  length (all_candidates internal stackoverflow youtube)
  = (length internal + length stackoverflow + length youtube)%nat.
Proof.
  unfold all_candidates. rewrite !length_app, !length_map. lia.
Qed.

(** The sorted array of which [combineAndRankResults] returns the first
    ten entries. *)
Lemma combineAndRankResults_ordered internal stackoverflow youtube :
  exists rest,
    Permutation (combineAndRankResults internal stackoverflow youtube ++ rest)
                (all_candidates internal stackoverflow youtube) /\
    StronglySorted (descending rank_score)
      (combineAndRankResults internal stackoverflow youtube ++ rest) /\
    length (combineAndRankResults internal stackoverflow youtube)
    = Nat.min 10 (length (all_candidates internal stackoverflow youtube)).
Proof.
  unfold combineAndRankResults. rewrite slice_firstn by lia.
  change (Z.to_nat 10) with 10%nat.
  set (all := all_candidates internal stackoverflow youtube).
  exists (skipn 10 (sort (by_key_desc rank_score) all)).
  change (fun a b : ranked => rank_score b - rank_score a)
    with (by_key_desc rank_score).
  rewrite firstn_skipn, length_firstn, sort_length.
  repeat split; [apply sort_perm | apply sort_sorted].
Qed.

(** The score the code reads from an internal hit, by the fields of the
    hit: its relevance score, and its similarity in percent when the
    relevance score is missing or zero. *)
Lemma relevance_or_similarity_fields (item : hit) :
  (forall score,
      hit_relevance_score item = Some score -> score <> 0 ->
      relevance_or_similarity item = score) /\
  (hit_relevance_score item = None \/ hit_relevance_score item = Some 0 ->
   relevance_or_similarity item = hit_similarity item * 100).
Proof.
  unfold relevance_or_similarity, Reqb. split.
  - intros score -> Hscore. now destruct (Req_dec_T score 0).
  - intros [-> | ->]; [reflexivity|].
    destruct (Req_dec_T 0 0); [reflexivity | contradiction].
Qed.

(** C2.  The fused list holds every candidate of every source once.  An
    internal hit has the score of its relevance-or-similarity percentage
    plus 100: its relevance score plus 100, and its similarity times 100
    plus 100 when the relevance score is missing or zero.  A Stack
    Overflow result has its own relevance score, a YouTube result 30.
    The list is in descending order of that score, and
    [combineAndRankResults] returns its first ten entries. *)
Theorem combineAndRankResults_fusion :
  forall (internal : list hit) (stackoverflow : list so_result)
         (youtube : list yt_result),
    let top := combineAndRankResults internal stackoverflow youtube in
    exists rest,
      Permutation (map entry (top ++ rest))
                  (map Internal internal ++ map StackOverflow stackoverflow
                   ++ map YouTube youtube) /\
      (forall r, In r (top ++ rest) ->
         match entry r with
         | Internal item =>
             (forall score,
                 hit_relevance_score item = Some score -> score <> 0 ->
                 rank_score r = score + 100) /\
             (hit_relevance_score item = None \/
              hit_relevance_score item = Some 0 ->
              rank_score r = hit_similarity item * 100 + 100)
         | StackOverflow item => rank_score r = so_relevance_score item
         | YouTube _ => rank_score r = 30
         end) /\
      StronglySorted (descending rank_score) (top ++ rest) /\
      length top
      = Nat.min 10 (length internal + length stackoverflow + length youtube).
Proof.
  intros internal stackoverflow youtube top.
  destruct (combineAndRankResults_ordered internal stackoverflow youtube)
    as [rest [Hperm [Hsorted Hlen]]].
  exists rest. fold top in Hperm, Hsorted, Hlen.
  repeat split.
  - rewrite <- all_candidates_entries. now apply Permutation_map.
  - intros r Hr. apply (Permutation_in _ Hperm) in Hr.
    apply all_candidates_scores in Hr.
    destruct (entry r) as [item | item | item]; try tauto.
    destruct Hr as [_ [_ ->]].
    destruct (relevance_or_similarity_fields item) as [Hscore Hsim].
    split.
    + intros score Hs Hnz. now rewrite (Hscore score Hs Hnz).
    + intros Hmissing. now rewrite (Hsim Hmissing).
  - exact Hsorted.
  - now rewrite Hlen, all_candidates_length.
Qed.

(** C10, as the code has it.  When every internal hit has a positive
    relevance score, or a relevance score that is zero or missing and a
    similarity that is not negative, every internal entry has a fused
    score of at least 100 and every YouTube entry 30; no internal entry
    comes after a YouTube entry, a YouTube entry among the first ten
    leaves no internal hit out, and an internal hit is left out only by
    ten entries that are no YouTube result. *)
Theorem internal_above_youtube :
  forall (internal : list hit) (stackoverflow : list so_result)
         (youtube : list yt_result),
    (forall item, In item internal ->
       match hit_relevance_score item with
       | Some score => 0 < score \/ (score = 0 /\ 0 <= hit_similarity item)
       | None => 0 <= hit_similarity item
       end) ->
    let top := combineAndRankResults internal stackoverflow youtube in
    (forall r item, In r top -> entry r = Internal item ->
                    100 <= rank_score r) /\
    (forall r item, In r top -> entry r = YouTube item ->
                    rank_score r = 30) /\
    (forall before y after item,
        top = before ++ y :: after -> entry y = YouTube item ->
        forall r item', In r after -> entry r <> Internal item') /\
    (forall y item, In y top -> entry y = YouTube item ->
        forall item', In item' internal ->
        exists r, In r top /\ entry r = Internal item') /\
    (forall item, In item internal ->
        (exists r, In r top /\ entry r = Internal item /\
                   100 <= rank_score r) \/
        (length top = 10%nat /\
         forall r, In r top ->
           100 <= rank_score r /\ forall video, entry r <> YouTube video)).
Proof.
  intros internal stackoverflow youtube Hfields top.
  assert (Hnonneg : forall item,
             In item internal -> 0 <= relevance_or_similarity item).
  { intros item Hin. specialize (Hfields item Hin).
    destruct (relevance_or_similarity_fields item) as [Hscore Hsim].
    destruct (hit_relevance_score item) as [score |].
    - destruct Hfields as [Hpos | [-> Hs]].
      + rewrite (Hscore score eq_refl); lra.
      + rewrite Hsim; [lra | now right].
    - rewrite Hsim; [lra | now left]. }
  destruct (combineAndRankResults_ordered internal stackoverflow youtube)
    as [rest [Hperm [Hsorted Hlen]]].
  fold top in Hperm, Hsorted, Hlen.
  assert (Hint : forall r item,
             In r (top ++ rest) -> entry r = Internal item ->
             100 <= rank_score r).
  { intros r item Hr He. apply (Permutation_in _ Hperm) in Hr.
    apply all_candidates_scores in Hr. rewrite He in Hr.
    destruct Hr as [Hin [_ ->]]. specialize (Hnonneg _ Hin). lra. }
  assert (Hyt : forall r item,
             In r (top ++ rest) -> entry r = YouTube item ->
             rank_score r = 30).
  { intros r item Hr He. apply (Permutation_in _ Hperm) in Hr.
    apply all_candidates_scores in Hr. rewrite He in Hr. tauto. }
  assert (Hcand : forall item,
             In item internal ->
             In (mkRanked (Internal item) internal_db
                   (relevance_or_similarity item + 100)) (top ++ rest)).
  { intros item Hin. apply (Permutation_in _ (Permutation_sym Hperm)).
    unfold all_candidates. apply in_or_app. left.
    apply in_map_iff. now exists item. }
  repeat split.
  - intros r item Hr. apply Hint, in_or_app. now left.
  - intros r item Hr. apply Hyt, in_or_app. now left.
  - intros before y after item Htop Hy r item' Hr He.
    assert (Hs : StronglySorted (descending rank_score) top)
      by now apply StronglySorted_prefix in Hsorted.
    rewrite Htop in Hs.
    change (before ++ y :: after) with (before ++ [y] ++ after) in Hs.
    rewrite app_assoc in Hs.
    assert (Hle : descending rank_score y r).
    { apply (StronglySorted_split _ _ _ Hs); [|exact Hr].
      apply in_or_app. right. now left. }
    assert (Hy30 : rank_score y = 30).
    { apply (Hyt y item); [|exact Hy]. apply in_or_app. left.
      rewrite Htop. apply in_or_app. right. now left. }
    assert (Hr100 : 100 <= rank_score r).
    { apply (Hint r item'); [|exact He]. apply in_or_app. left.
      rewrite Htop. apply in_or_app. right. now right. }
    unfold descending in Hle. lra.
  - intros y item Hy He item' Hin.
    set (r := mkRanked (Internal item') internal_db
                       (relevance_or_similarity item' + 100)).
    pose proof (Hcand item' Hin) as Hr. fold r in Hr.
    exists r. split; [|reflexivity].
    apply in_app_or in Hr. destruct Hr as [Hr | Hr]; [exact Hr|].
    exfalso.
    pose proof (StronglySorted_split _ _ _ Hsorted y r Hy Hr) as Hle.
    assert (Hy30 : rank_score y = 30).
    { apply (Hyt y item); [|exact He]. apply in_or_app. now left. }
    specialize (Hnonneg _ Hin).
    unfold descending in Hle. simpl in Hle. lra.
  - intros item Hin.
    set (r := mkRanked (Internal item) internal_db
                       (relevance_or_similarity item + 100)).
    pose proof (Hcand item Hin) as Hr. fold r in Hr.
    assert (Hr100 : 100 <= rank_score r)
      by (specialize (Hnonneg _ Hin); simpl; lra).
    apply in_app_or in Hr. destruct Hr as [Hr | Hr].
    + left. exists r. now repeat split.
    + right.
      assert (Hall : forall r', In r' top -> 100 <= rank_score r').
      { intros r' Hr'.
        pose proof (StronglySorted_split _ _ _ Hsorted r' r Hr' Hr) as Hle.
        unfold descending in Hle. lra. }
      split.
      * apply Permutation_length in Hperm.
        rewrite length_app in Hperm. rewrite Hlen.
        destruct rest as [| x rest]; [contradiction|].
        cbn [length] in Hperm. rewrite Hlen in Hperm.
        revert Hperm. generalize (length (all_candidates internal
                                            stackoverflow youtube)).
        intros n Hn. lia.
      * intros r' Hr'. split; [now apply Hall|].
        intros video He.
        assert (H30 : rank_score r' = 30).
        { apply (Hyt r' video); [|exact He]. apply in_or_app. now left. }
        specialize (Hall r' Hr'). lra.
Qed.

(** The theorem at one internal hit and one YouTube result. *)
Lemma internal_above_youtube_witness :
  let h := mkHit (mkProblem 1 "vpn" "no route") (1 / 2) (Some 50) in
  let video := mkYtResult youtube "t" "d" "l" "v" "c" "u" in
  0 < 50 /\
  (forall r item, In r (combineAndRankResults [h] [] [video]) ->
                  entry r = Internal item -> 100 <= rank_score r) /\
  exists r, In r (combineAndRankResults [h] [] [video]) /\
            entry r = Internal h /\ 100 <= rank_score r.
Proof.
  intros h video.
  assert (Hpos : 0 < 50) by lra.
  split; [exact Hpos|].
  assert (H : forall item, In item [h] ->
                match hit_relevance_score item with
                | Some score =>
                    0 < score \/ (score = 0 /\ 0 <= hit_similarity item)
                | None => 0 <= hit_similarity item
                end).
  { intros item [<- | []]. now left. }
  destruct (internal_above_youtube [h] [] [video] H)
    as [Hint [_ [_ [_ Hkept]]]].
  split; [exact Hint|].
  destruct (Hkept h (or_introl eq_refl)) as [Hr | [Hlen _]]; [exact Hr|].
  exfalso.
  destruct (combineAndRankResults_ordered [h] [] [video])
    as [rest [_ [_ Htwo]]].
  rewrite Htwo in Hlen. discriminate Hlen.
Defined.

(** C10 as stated: an internal hit whose relevance score is 0, which is
    not negative, and whose similarity is -0.9.  The code takes the zero
    for a missing score and reads the similarity: the fused score is 10,
    below the 30 of the YouTube result, which comes first. *)
Lemma internal_below_youtube :
  let h := mkHit (mkProblem 1 "vpn" "no route") (- (9 / 10)) (Some 0) in
  let video := mkYtResult youtube "t" "d" "l" "v" "c" "u" in
  (exists score, hit_relevance_score h = Some score /\ 0 <= score) /\
  combineAndRankResults [h] [] [video]
  = [mkRanked (YouTube video) youtube 30;
     mkRanked (Internal h) internal_db (- (9 / 10) * 100 + 100)] /\
  ~ (forall r item,
        In r (combineAndRankResults [h] [] [video]) ->
        entry r = Internal item -> 100 <= rank_score r).
Proof.
  intros h video.
  assert (H : combineAndRankResults [h] [] [video]
              = [mkRanked (YouTube video) youtube 30;
                 mkRanked (Internal h) internal_db
                   (- (9 / 10) * 100 + 100)]).
  { unfold combineAndRankResults, all_candidates, relevance_or_similarity,
      Reqb, slice, sort, h, video. decide_R. reflexivity. }
  split; [exists 0; split; [reflexivity | lra]|].
  split; [exact H|].
  intros Hall.
  specialize (Hall (mkRanked (Internal h) internal_db
                      (- (9 / 10) * 100 + 100)) h).
  rewrite H in Hall. cbn [rank_score entry] in Hall.
  assert (Hbad : 100 <= - (9 / 10) * 100 + 100)
    by (apply Hall; [right; now left | reflexivity]).
  lra.
Qed.

(** ** The aggregator: [searchAllSources] *)

(** The adapters answer with an empty array when the request fails. *)
Lemma searchStackOverflow_failed now toISOString get query limit code :
  get query limit = Failed code ->
  searchStackOverflow now toISOString get query limit = [].
Proof.
  intros H. unfold searchStackOverflow. rewrite H.
  now destruct (falsy_string query).
Qed.

Lemma searchYouTube_failed key get query limit code :
  get query limit = Failed code ->
  searchYouTube key get query limit = [].
Proof.
  intros H. unfold searchYouTube. rewrite H.
  destruct (falsy_string query); [reflexivity|].
  now destruct key as [[|]|].
Qed.

Lemma falsy_string_false (s : string) :
  s <> EmptyString -> falsy_string s = false.
Proof. now destruct s. Qed.

(** C1, as the code has it.  For a query that is not the empty string,
    [searchAllSources] returns whatever the three searches do: the count
    and the results of a source are those of its search, and are empty
    when the internal search is rejected or the request of an adapter
    fails; [top_results] has at most ten entries in descending order of
    the fused score.  With two internal hits, a failing Stack Overflow
    request and one YouTube result the counts are 2, 0 and 1. *)
Theorem searchAllSources_tolerates_failures :
  forall (now : R) (now_iso : string) (toISOString : Z -> string)
         (key : option string)
         (getStackOverflow : string -> Z -> outcome (option (list so_item)))
         (getYouTube : string -> Z -> outcome (option (list yt_item)))
         (query : string)
         (supabaseSearchFn : string -> Z -> result (list hit))
         (opts : options),
    query <> EmptyString ->
    let internal :=
      match supabaseSearchFn query (internalLimit opts) with
      | Ok hits => hits
      | Throw _ => []
      end in
    let answers :=
      searchStackOverflow now toISOString getStackOverflow query
        (stackOverflowLimit opts) in
    let videos :=
      searchYouTube key getYouTube query (youtubeLimit opts) in
    exists c,
      searchAllSources now now_iso toISOString key getStackOverflow
        getYouTube query supabaseSearchFn opts = Ok c /\
      count (sources_internal (combined_sources c)) = length internal /\
      map fst (results (sources_internal (combined_sources c))) = internal /\
      count (sources_stackoverflow (combined_sources c)) = length answers /\
      results (sources_stackoverflow (combined_sources c)) = answers /\
      count (sources_youtube (combined_sources c)) = length videos /\
      results (sources_youtube (combined_sources c)) = videos /\
      (forall code,
          getStackOverflow query (stackOverflowLimit opts) = Failed code ->
          answers = []) /\
      (forall code,
          getYouTube query (youtubeLimit opts) = Failed code ->
          videos = []) /\
      top_results c = combineAndRankResults internal answers videos /\
      (length (top_results c) <= 10)%nat /\
      StronglySorted (descending rank_score) (top_results c) /\
      (forall h1 h2 code y,
          supabaseSearchFn query (internalLimit opts) = Ok [h1; h2] ->
          getStackOverflow query (stackOverflowLimit opts) = Failed code ->
          videos = [y] ->
          count (sources_internal (combined_sources c)) = 2%nat /\
          count (sources_stackoverflow (combined_sources c)) = 0%nat /\
          count (sources_youtube (combined_sources c)) = 1%nat).
Proof.
  intros now now_iso toISOString key getSO getYT query fn opts Hquery
         internal answers videos.
  unfold searchAllSources. rewrite (falsy_string_false _ Hquery).
  eexists. split; [reflexivity|]. cbn [combined_sources sources_internal
    sources_stackoverflow sources_youtube count results top_results
    valueOrEmpty].
  assert (Hint : valueOrEmpty (settle (fn query (internalLimit opts)))
                 = internal).
  { unfold internal. now destruct (fn query (internalLimit opts)). }
  rewrite Hint. fold answers videos.
  destruct (combineAndRankResults_ordered internal answers videos)
    as [rest [Hperm [Hsorted Hlen]]].
  split; [reflexivity|].
  split; [rewrite map_map; simpl; apply map_id|].
  do 4 (split; [reflexivity|]).
  split; [intros code H; eapply searchStackOverflow_failed, H|].
  split; [intros code H; eapply searchYouTube_failed, H|].
  split; [reflexivity|].
  split; [rewrite Hlen; apply Nat.le_min_l|].
  split; [now apply StronglySorted_prefix in Hsorted|].
  intros h1 h2 code y Hhits Hfail Hvideo.
  split; [unfold internal; now rewrite Hhits|].
  split; [|now rewrite Hvideo].
  unfold answers.
  now rewrite (searchStackOverflow_failed _ _ _ _ _ _ Hfail).
Qed.

(** The theorem at two internal hits, a Stack Overflow request that times
    out and one video. *)
Lemma searchAllSources_tolerates_failures_witness :
  let h1 := mkHit (mkProblem 1 "vpn" "no route") (9 / 10) (Some 90) in
  let h2 := mkHit (mkProblem 2 "dns" "no answer") (1 / 2) (Some 50) in
  let video := mkYtItem "v1" "title" "text" "channel" (Some "url"%string) in
  let getStackOverflow := fun (_ : string) (_ : Z) =>
        @Failed (option (list so_item)) 408 in
  let getYouTube := fun (_ : string) (_ : Z) => Returned (Some [video]) in
  let supabaseSearchFn := fun (_ : string) (_ : Z) => Ok [h1; h2] in
  "vpn"%string <> EmptyString /\
  exists c,
    searchAllSources 0 "2024" (fun _ => "2024"%string) (Some "key"%string)
      getStackOverflow getYouTube "vpn" supabaseSearchFn default_options
    = Ok c /\
    count (sources_internal (combined_sources c)) = 2%nat /\
    count (sources_stackoverflow (combined_sources c)) = 0%nat /\
    count (sources_youtube (combined_sources c)) = 1%nat /\
    (length (top_results c) <= 10)%nat.
Proof.
  intros h1 h2 video getStackOverflow getYouTube supabaseSearchFn.
  assert (Hquery : "vpn"%string <> EmptyString) by discriminate.
  split; [exact Hquery|].
  destruct (searchAllSources_tolerates_failures 0 "2024"
              (fun _ => "2024"%string) (Some "key"%string)
              getStackOverflow getYouTube "vpn" supabaseSearchFn
              default_options Hquery)
    as [c [Hc [_ [_ [_ [_ [_ [_ [_ [_ [_ [Hlen [_ Hscenario]]]]]]]]]]]]].
  exists c. split; [exact Hc|].
  destruct (Hscenario h1 h2 408%Z
              (mkYtResult youtube "title" "text"
                 "https://www.youtube.com/watch?v=v1" "v1" "channel" "url"))
    as [Hi [Hs Hy]]; try reflexivity.
  repeat split; assumption.
Defined.

(** C1 as stated, for every query: the empty query is rejected before any
    source is asked, whatever the sources would answer. *)
Lemma searchAllSources_empty_query :
  let h1 := mkHit (mkProblem 1 "vpn" "no route") (9 / 10) (Some 90) in
  let h2 := mkHit (mkProblem 2 "dns" "no answer") (1 / 2) (Some 50) in
  let video := mkYtItem "v1" "title" "text" "channel" (Some "url"%string) in
  let getStackOverflow := fun (_ : string) (_ : Z) =>
        @Failed (option (list so_item)) 408 in
  let getYouTube := fun (_ : string) (_ : Z) => Returned (Some [video]) in
  let supabaseSearchFn := fun (_ : string) (_ : Z) => Ok [h1; h2] in
  searchAllSources 0 "2024" (fun _ => "2024"%string) (Some "key"%string)
    getStackOverflow getYouTube "" supabaseSearchFn default_options
  = Throw QueryNotNonEmptyString /\
  ~ exists c,
      searchAllSources 0 "2024" (fun _ => "2024"%string)
        (Some "key"%string) getStackOverflow getYouTube "" supabaseSearchFn
        default_options = Ok c.
Proof.
  cbv zeta. split; [reflexivity|].
  intros [c Hc]. discriminate Hc.
Qed.

(** ** The similarity engine: [cosineSimilarity] *)

(** The loop computes the three sums, in any arithmetic. *)
Lemma accumulate_dot_from {number : Type} (add mul : number -> number -> number)
  (v1 v2 : list number) (d n1 n2 : number) :
  length v1 = length v2 ->
  accumulate number add mul v1 v2 d n1 n2
  = (dot_from add mul d v1 v2, dot_from add mul n1 v1 v1,
     dot_from add mul n2 v2 v2).
Proof.
  revert v2 d n1 n2.
  induction v1 as [| x v1 IH]; intros [| y v2] d n1 n2 Hlen;
    try discriminate; [reflexivity|].
  simpl. apply IH. now injection Hlen.
Qed.

(** Exact arithmetic. *)
Lemma dot_from_plus (acc : R) (a b : list R) :
  dot_from Rplus Rmult acc a b = acc + dot a b.
Proof.
  unfold dot. revert acc b.
  induction a as [| x a IH]; intros acc [| y b]; simpl; try lra.
  rewrite IH, (IH (0 + x * y)). lra.
Qed.

Lemma dot_cons (x y : R) (a b : list R) :
  dot (x :: a) (y :: b) = x * y + dot a b.
Proof. unfold dot. simpl. rewrite dot_from_plus. unfold dot. lra. Qed.

Lemma dot_self_nonneg (a : list R) : 0 <= dot a a.
Proof.
  induction a as [| x a IH]; [unfold dot; simpl; lra|].
  rewrite dot_cons. nra.
Qed.

Lemma dot_self_zero (a : list R) : dot a a = 0 <-> zero_vector a.
Proof.
  unfold zero_vector. induction a as [| x a IH].
  - split; [constructor | reflexivity].
  - rewrite dot_cons. pose proof (dot_self_nonneg a) as Hnn. split.
    + intros H. constructor; [nra|]. apply IH. nra.
    + intros H. inversion H as [| ? ? Hx Ha]; subst.
      apply IH in Ha. rewrite Ha. lra.
Qed.

Lemma norm_zero (a : list R) : norm a = 0 <-> zero_vector a.
Proof.
  unfold norm. rewrite <- dot_self_zero. split.
  - intros H. apply sqrt_eq_0; [apply dot_self_nonneg | exact H].
  - intros ->. apply sqrt_0.
Qed.

(** In exact arithmetic the guard of [cosineSimilarity] is the zero
    magnitude of one of the vectors, which is all its components being
    zero; otherwise the result is the quotient of the dot product by the
    product of the norms. *)
Lemma cosineSimilarity_exact (v1 v2 : list R) :
  length v1 = length v2 ->
  (zero_vector v1 \/ zero_vector v2 ->
   cosineSimilarity (Some v1) (Some v2) = Ok 0) /\
  (~ zero_vector v1 -> ~ zero_vector v2 ->
   cosineSimilarity (Some v1) (Some v2)
   = Ok (dot v1 v2 / (norm v1 * norm v2))).
Proof.
  intros Hlen. unfold cosineSimilarity, cosineSimilarityWith.
  rewrite Hlen, Nat.eqb_refl. cbn [negb].
  rewrite accumulate_dot_from, !dot_from_plus, !Rplus_0_l by assumption.
  fold (norm v1) (norm v2). unfold Reqb.
  destruct (Req_dec_T (norm v1 * norm v2) 0) as [Hz | Hnz]; split.
  - reflexivity.
  - intros H1 H2. rewrite <- norm_zero in H1, H2.
    apply Rmult_integral in Hz. tauto.
  - intros [H | H]; apply norm_zero in H; rewrite H in Hnz; lra.
  - reflexivity.
Qed.

(** Binary64. *)
Lemma dot64_zero_vector (a : list float) :
  zero_vector64 a -> dot64 a a = PrimFloat.zero.
Proof.
  unfold dot64. induction 1 as [| x a [-> | ->] _ IH]; [reflexivity| |];
    simpl; exact IH.
Qed.

Lemma finite_cases (s : float) :
  is_finite s = true ->
  (exists b, Prim2SF s = S754_zero b) \/
  (exists b m e, Prim2SF s = S754_finite b m e).
Proof.
  unfold is_finite, is_nan, is_infinity.
  rewrite !FloatAxioms.eqb_spec, FloatAxioms.abs_spec.
  destruct (Prim2SF s) as [b | b | | b m e] eqn:Hs.
  - intros _. left. now exists b.
  - cbn. destruct b; discriminate.
  - cbn. discriminate.
  - intros _. right. now exists b, m, e.
Qed.

(** Zero times a finite number is a zero. *)
Lemma mul_zero_finite (s : float) :
  is_finite s = true ->
  PrimFloat.eqb (PrimFloat.mul PrimFloat.zero s) PrimFloat.zero = true /\
  PrimFloat.eqb (PrimFloat.mul s PrimFloat.zero) PrimFloat.zero = true.
Proof.
  intros Hs. rewrite !FloatAxioms.eqb_spec, !FloatAxioms.mul_spec.
  change (Prim2SF PrimFloat.zero) with (S754_zero false).
  destruct (finite_cases s Hs) as [[b ->] | [b [m [e ->]]]];
    split; destruct b; reflexivity.
Qed.

(** The guard of [cosineSimilarity] in the arithmetic of the runtime (C4
    where the guard works): when one vector has all components zero and
    the magnitude computed for the other is finite, the result is 0; and
    whenever the product of the two computed magnitudes is not 0, the
    result is the dot product divided by that product. *)
Theorem cosineSimilarity64_zero_magnitude :
  forall v1 v2 : list float,
    length v1 = length v2 ->
    let magnitude := PrimFloat.mul (norm64 v1) (norm64 v2) in
    (zero_vector64 v1 -> is_finite (norm64 v2) = true ->
     cosineSimilarity64 (Some v1) (Some v2) = Ok PrimFloat.zero) /\
    (zero_vector64 v2 -> is_finite (norm64 v1) = true ->
     cosineSimilarity64 (Some v1) (Some v2) = Ok PrimFloat.zero) /\
    (PrimFloat.eqb magnitude PrimFloat.zero = true ->
     cosineSimilarity64 (Some v1) (Some v2) = Ok PrimFloat.zero) /\
    (PrimFloat.eqb magnitude PrimFloat.zero = false ->
     cosineSimilarity64 (Some v1) (Some v2)
     = Ok (PrimFloat.div (dot64 v1 v2) magnitude)).
Proof.
  intros v1 v2 Hlen magnitude.
  assert (Hcos : cosineSimilarity64 (Some v1) (Some v2)
                 = if PrimFloat.eqb magnitude PrimFloat.zero
                   then Ok PrimFloat.zero
                   else Ok (PrimFloat.div (dot64 v1 v2) magnitude)).
  { unfold cosineSimilarity64, cosineSimilarityWith.
    rewrite Hlen, Nat.eqb_refl. cbn [negb].
    now rewrite accumulate_dot_from by assumption. }
  rewrite Hcos. repeat split.
  - intros Hz Hfin. unfold magnitude, norm64 at 1.
    rewrite (dot64_zero_vector _ Hz).
    change (PrimFloat.sqrt PrimFloat.zero) with PrimFloat.zero.
    now rewrite (proj1 (mul_zero_finite _ Hfin)).
  - intros Hz Hfin. unfold magnitude, norm64 at 2.
    rewrite (dot64_zero_vector _ Hz).
    change (PrimFloat.sqrt PrimFloat.zero) with PrimFloat.zero.
    now rewrite (proj2 (mul_zero_finite _ Hfin)).
  - now intros ->.
  - now intros ->.
Qed.

Set Warnings "-inexact-float".

(** The theorem at the zero vector and the vector (3, 4). *)
Lemma cosineSimilarity64_zero_magnitude_witness :
  length [0%float; 0%float] = length [3%float; 4%float] /\
  cosineSimilarity64 (Some [0%float; 0%float]) (Some [3%float; 4%float])
  = Ok 0%float.
Proof.
  split; [reflexivity|].
  destruct (cosineSimilarity64_zero_magnitude
              [0%float; 0%float] [3%float; 4%float] eq_refl) as [H _].
  apply H; [|reflexivity].
  repeat constructor.
Defined.

(** C4 at the zero vector against a component of 1e200, whose square
    overflows.  The guard [magnitude === 0] is there to return 0 for a
    vector of zero magnitude, but the magnitude the code computes is 0
    times Infinity, which is NaN and not 0: the guard does not fire and
    the result is NaN. *)
Lemma cosineSimilarity64_zero_against_overflow :
  zero_vector64 [0%float] /\
  cosineSimilarity64 (Some [0%float]) (Some [1e200%float]) = Ok nan /\
  cosineSimilarity64 (Some [0%float]) (Some [1e200%float]) <> Ok 0%float.
Proof.
  assert (H : cosineSimilarity64 (Some [0%float]) (Some [1e200%float])
              = Ok nan) by (vm_compute; reflexivity).
  split; [repeat constructor|]. split; [exact H|].
  rewrite H. intros Heq.
  apply (f_equal (fun r => match r with
                           | Ok x => is_nan x
                           | Throw _ => false
                           end)) in Heq.
  vm_compute in Heq. discriminate.
Qed.

(** C5.  For two vectors, [cosineSimilarity] throws exactly when their
    lengths differ, and then its one error, the one that says the vectors
    must have the same length; for two vectors of one length it returns a
    number.  A call without a vector throws that same error. *)
Theorem cosineSimilarity_throws_iff :
  forall a b : list R,
    (cosineSimilarity (Some a) (Some b) = Throw VectorLengthMismatch <->
     length a <> length b) /\
    (forall e, cosineSimilarity (Some a) (Some b) = Throw e ->
               e = VectorLengthMismatch /\ length a <> length b) /\
    (length a = length b ->
     exists r, cosineSimilarity (Some a) (Some b) = Ok r) /\
    (forall vec : option (list R),
        cosineSimilarity None vec = Throw VectorLengthMismatch /\
        cosineSimilarity vec None = Throw VectorLengthMismatch).
Proof.
  intros a b.
  assert (Hmissing : forall vec : option (list R),
             cosineSimilarity None vec = Throw VectorLengthMismatch /\
             cosineSimilarity vec None = Throw VectorLengthMismatch).
  { intros [v |]; split; reflexivity. }
  assert (Hcases :
            (length a = length b /\
             exists r, cosineSimilarity (Some a) (Some b) = Ok r) \/
            (length a <> length b /\
             cosineSimilarity (Some a) (Some b)
             = Throw VectorLengthMismatch)).
  { unfold cosineSimilarity, cosineSimilarityWith.
    destruct (Nat.eqb_spec (length a) (length b)) as [Heq | Hneq];
      cbn [negb]; [left | right; now split].
    split; [exact Heq|].
    destruct (accumulate R Rplus Rmult a b 0 0 0) as [[d n1] n2].
    destruct (Reqb (sqrt n1 * sqrt n2) 0); eexists; reflexivity. }
  destruct Hcases as [[Heq [r Hr]] | [Hneq Hthrow]].
  - rewrite Hr. split; [split; [discriminate | contradiction]|].
    split; [intros e; discriminate|].
    split; [intros _; now exists r | exact Hmissing].
  - rewrite Hthrow. split; [split; [now intros _ | reflexivity]|].
    split; [intros e [= <-]; now split|].
    split; [contradiction | exact Hmissing].
Qed.

(** ** The vector encoder: [generateEmbedding] *)

Lemma trim_empty (s : string) :
  (String.length (trim s) =? 0)%nat = true <-> trim s = EmptyString.
Proof.
  destruct (trim s); simpl; split; intros H; try reflexivity; discriminate.
Qed.

Lemma trim_of_empty : trim EmptyString = EmptyString.
Proof. reflexivity. Qed.

Lemma repaired_to_length (d : nat) (v : list R) :
  length (repaired_to d v) = d.
Proof.
  unfold repaired_to. destruct (Nat.ltb_spec (length v) d) as [Hlt | Hge].
  - rewrite length_app, repeat_length. lia.
  - rewrite length_firstn. lia.
Qed.

(** The array [generateEmbedding] makes of [output.data]. *)
Lemma adjust_repaired (dimensions : Z) (data : list R) :
  (0 <= dimensions)%Z ->
  (let len := Z.of_nat (length data) in
   if (len =? dimensions)%Z then data
   else if (len <? dimensions)%Z
        then data ++ zeros (Z.to_nat (dimensions - len))
        else slice data dimensions)
  = repaired_to (Z.to_nat dimensions) data.
Proof.
  intros Hd. cbv zeta. unfold repaired_to, zeros.
  destruct (Z.eqb_spec (Z.of_nat (length data)) dimensions) as [Heq | Hneq].
  - subst dimensions. rewrite Nat2Z.id, Nat.ltb_irrefl.
    now rewrite firstn_all.
  - destruct (Z.ltb_spec (Z.of_nat (length data)) dimensions) as [Hlt | Hge].
    + destruct (Nat.ltb_spec (length data) (Z.to_nat dimensions)); [|lia].
      do 2 f_equal. lia.
    + destruct (Nat.ltb_spec (length data) (Z.to_nat dimensions)); [lia|].
      now apply slice_firstn.
Qed.

Lemma generateEmbedding_success pipeline model text dimensions st data :
  trim text <> EmptyString ->
  embedder st = true \/ pipeline = Returned tt ->
  model (trim text) = Returned data ->
  (0 <= dimensions)%Z ->
  generateEmbedding pipeline model text dimensions st
  = (after_embedding st (trim text),
     Ok (repaired_to (Z.to_nat dimensions) data)).
Proof.
  intros Htrim Hload Hmodel Hd. unfold generateEmbedding.
  assert (Hfalsy : falsy_string text = false).
  { destruct text; [now rewrite trim_of_empty in Htrim | reflexivity]. }
  rewrite Hfalsy.
  destruct (String.length (trim text) =? 0)%nat eqn:Hlen;
    [now apply trim_empty in Hlen|].
  assert (Hinit : initializeModel pipeline st
                  = (mkState true
                       (calls st
                        ++ (if embedder st then [] else [LoadPipeline])),
                     Ok tt)).
  { unfold initializeModel. destruct st as [[|] cs]; simpl.
    - now rewrite app_nil_r.
    - destruct Hload as [Hload | ->]; [discriminate | reflexivity]. }
  rewrite Hinit, Hmodel. cbn [await embedder calls].
  rewrite <- (adjust_repaired dimensions data Hd). cbv zeta.
  unfold after_embedding. rewrite <- app_assoc.
  destruct (Z.of_nat (length data) =? dimensions)%Z; [reflexivity|].
  now destruct (Z.of_nat (length data) <? dimensions)%Z.
Qed.

Lemma generateEmbedding_length pipeline model text dimensions st st' v :
  generateEmbedding pipeline model text dimensions st = (st', Ok v) ->
  (0 <= dimensions)%Z ->
  length v = Z.to_nat dimensions.
Proof.
  unfold generateEmbedding. intros H Hd.
  destruct (falsy_string text); [discriminate|].
  destruct (String.length (trim text) =? 0)%nat; [discriminate|].
  destruct (initializeModel pipeline st) as [st1 [[] | e]]; [|discriminate].
  destruct (await (model (trim text))) as [data | e]; [|discriminate].
  pose proof (adjust_repaired dimensions data Hd) as Hadj. cbv zeta in Hadj.
  assert (Hv : v = repaired_to (Z.to_nat dimensions) data).
  { rewrite <- Hadj.
    destruct (Z.of_nat (length data) =? dimensions)%Z;
      [|destruct (Z.of_nat (length data) <? dimensions)%Z];
      now injection H. }
  rewrite Hv. apply repaired_to_length.
Qed.

(** C8.  A text that is empty after trimming is rejected with one of the
    two empty-input errors and the state is left as it was: the pipeline
    is not loaded and no inference is run.  For any other text, an error
    of [generateEmbedding] is none of these two: it comes from the
    transformer library. *)
Theorem generateEmbedding_rejects_empty :
  forall (pipeline : outcome unit) (model : string -> outcome (list R))
         (text : string) (dimensions : Z) (st : state),
    (trim text = EmptyString ->
     exists e,
       generateEmbedding pipeline model text dimensions st = (st, Throw e) /\
       (e = TextNotNonEmptyString \/ e = TextEmptyAfterTrim)) /\
    (trim text <> EmptyString ->
     forall st' e,
       generateEmbedding pipeline model text dimensions st = (st', Throw e) ->
       exists code, e = External code).
Proof.
  intros pipeline model text dimensions st. unfold generateEmbedding. split.
  - intros Htrim. destruct (falsy_string text).
    + exists TextNotNonEmptyString. auto.
    + rewrite (proj2 (trim_empty text) Htrim).
      exists TextEmptyAfterTrim. auto.
  - intros Htrim st' e.
    destruct (falsy_string text) eqn:Hfalsy.
    { destruct text; [now rewrite trim_of_empty in Htrim | discriminate]. }
    destruct (String.length (trim text) =? 0)%nat eqn:Hlen;
      [now apply trim_empty in Hlen|].
    unfold initializeModel.
    destruct (embedder st); [|destruct pipeline as [[] | code0]];
      cbn [await];
      try (intros [= _ <-]; now exists code0);
      (destruct (model (trim text)) as [data | code]; cbn [await];
       [|intros [= _ <-]; now exists code]);
      destruct (Z.of_nat (length data) =? dimensions)%Z;
      try destruct (Z.of_nat (length data) <? dimensions)%Z;
      discriminate.
Qed.

(** The norm after padding and after truncation. *)
Lemma dot_zeros (k : nat) : dot (zeros k) (zeros k) = 0.
Proof.
  unfold zeros. induction k as [| k IH]; [reflexivity|].
  simpl repeat. rewrite dot_cons, IH. lra.
Qed.

Lemma dot_padded (a : list R) (k : nat) :
  dot (a ++ zeros k) (a ++ zeros k) = dot a a.
Proof.
  induction a as [| x a IH]; [apply dot_zeros|].
  simpl app. now rewrite !dot_cons, IH.
Qed.

Lemma dot_truncated (n : nat) (a : list R) :
  dot (firstn n a) (firstn n a) <= dot a a.
Proof.
  revert a. induction n as [| n IH]; intros a.
  - simpl. apply dot_self_nonneg.
  - destruct a as [| x a]; [simpl; lra|].
    simpl firstn. rewrite !dot_cons. specialize (IH a). lra.
Qed.

Lemma norm_repaired (d : nat) (v : list R) :
  norm (repaired_to d v) <= norm v /\
  ((length v <= d)%nat -> norm (repaired_to d v) = norm v).
Proof.
  unfold repaired_to, norm.
  destruct (Nat.ltb_spec (length v) d) as [Hlt | Hge].
  - fold (zeros (d - length v)). rewrite dot_padded. split; [lra | easy].
  - split.
    + apply sqrt_le_1_alt, dot_truncated.
    + intros Hle. now rewrite firstn_all2.
Qed.

(** C6, as the code has it.  When the text is not empty after trimming and
    the transformer library loads and answers, [generateEmbedding] with the
    default dimension returns 384 numbers: the output of the model, padded
    with zeros or truncated.  The norm of an output of at most 384
    components is kept, so the result has norm 1 when the output has;
    truncation can only lower the norm. *)
Theorem generateEmbedding_dimension :
  forall (pipeline : outcome unit) (model : string -> outcome (list R))
         (text : string) (st : state) (data : list R),
    trim text <> EmptyString ->
    embedder st = true \/ pipeline = Returned tt ->
    model (trim text) = Returned data ->
    exists st' v,
      generateEmbedding pipeline model text 384 st = (st', Ok v) /\
      length v = D /\
      v = repaired data /\
      norm v <= norm data /\
      ((length data <= D)%nat -> norm v = norm data) /\
      ((length data <= D)%nat -> norm data = 1 -> norm v = 1).
Proof.
  intros pipeline model text st data Htrim Hload Hmodel.
  exists (after_embedding st (trim text)), (repaired data).
  destruct (norm_repaired D data) as [Hle Heq]. unfold repaired.
  split; [|split; [apply repaired_to_length|]].
  - now apply generateEmbedding_success.
  - repeat split; [exact Hle | exact Heq|].
    intros Hlen H1. now rewrite (Heq Hlen).
Qed.

(** The theorem at a model that answers with the two components
    (3/5, 4/5), of norm 1. *)
Lemma generateEmbedding_dimension_witness :
  let model := fun _ : string => Returned [3 / 5; 4 / 5] in
  trim "vpn down" <> EmptyString /\
  exists st' v,
    generateEmbedding (Returned tt) model "vpn down" 384 (mkState false [])
    = (st', Ok v) /\
    length v = D /\
    norm v = 1.
Proof.
  intros model.
  assert (Htrim : trim "vpn down" <> EmptyString) by discriminate.
  split; [exact Htrim|].
  destruct (generateEmbedding_dimension (Returned tt) model "vpn down"
              (mkState false []) [3 / 5; 4 / 5] Htrim
              (or_intror eq_refl) eq_refl)
    as [st' [v [Hrun [Hlen [_ [_ [_ Hnorm]]]]]]].
  exists st', v. split; [exact Hrun|]. split; [exact Hlen|].
  apply Hnorm; [unfold D; simpl; lia|].
  unfold norm. rewrite !dot_cons.
  replace (3 / 5 * (3 / 5) + (4 / 5 * (4 / 5) + dot [] [])) with 1
    by (unfold dot; simpl; lra).
  apply sqrt_1.
Defined.

(** C6 as stated: a model that answers with 385 components, the last of
    them 1 and the others 0, gives an output of norm 1; the encoder
    truncates it to 384 zeros, whose norm is 0. *)
Lemma generateEmbedding_truncation_loses_norm :
  let data := zeros 384 ++ [1] in
  let model := fun _ : string => Returned data in
  norm data = 1 /\
  generateEmbedding (Returned tt) model "vpn down" 384 (mkState false [])
  = (after_embedding (mkState false []) "vpn down", Ok (zeros 384)) /\
  length (zeros 384) = 384%nat /\
  norm (zeros 384) <> 1.
Proof.
  intros data model.
  assert (Hdata : dot data data = 1).
  { unfold data. generalize 384%nat. intros k. unfold zeros.
    induction k as [| k IH]; simpl.
    - rewrite dot_cons. unfold dot. simpl. lra.
    - rewrite dot_cons, IH. lra. }
  split; [unfold norm; rewrite Hdata; apply sqrt_1|].
  split.
  - rewrite (generateEmbedding_success (Returned tt) model "vpn down" 384
               (mkState false []) data).
    + do 2 f_equal; vm_compute; reflexivity.
    + discriminate.
    + now right.
    + reflexivity.
    + lia.
  - split; [apply repeat_length|].
    unfold norm. rewrite dot_zeros, sqrt_0. lra.
Qed.

(** ** The similarity step of [semanticSearch] *)

Lemma cosineSimilarity_returns (a b : list R) :
  length a = length b -> exists s, cosineSimilarity (Some a) (Some b) = Ok s.
Proof.
  intros Hlen. unfold cosineSimilarity, cosineSimilarityWith.
  rewrite Hlen, Nat.eqb_refl. cbn [negb].
  destruct (accumulate R Rplus Rmult a b 0 0 0) as [[d n1] n2].
  destruct (Reqb (sqrt n1 * sqrt n2) 0); eexists; reflexivity.
Qed.

(** With a query embedding of 384 components, the vector handed to
    [cosineSimilarity] is the stored one repaired to 384 components. *)
Lemma row_vector_repaired (queryEmbedding v : list R) :
  length queryEmbedding = D ->
  (if negb (length v =? length queryEmbedding)%nat
   then if (length v <? 384)%nat
        then v ++ zeros (384 - length v)
        else slice v 384
   else v)
  = repaired v.
Proof.
  intros Hq. rewrite Hq. unfold repaired, repaired_to, D, zeros.
  destruct (Nat.eqb_spec (length v) 384) as [Heq | Hneq]; cbn [negb].
  - rewrite Heq, Nat.ltb_irrefl, <- Heq. now rewrite firstn_all.
  - destruct (length v <? 384)%nat; [reflexivity|].
    now rewrite slice_firstn by lia.
Qed.

Lemma rowSimilarity_cases JSON_parse (queryEmbedding : list R)
  (emb : embedding_row) :
  length queryEmbedding = D ->
  match array_of JSON_parse (emb_vector emb) with
  | None =>
      rowSimilarity JSON_parse queryEmbedding emb = Ok None \/
      rowSimilarity JSON_parse queryEmbedding emb = Throw SyntaxError
  | Some v =>
      exists s,
        cosineSimilarity (Some queryEmbedding) (Some (repaired v)) = Ok s /\
        rowSimilarity JSON_parse queryEmbedding emb
        = Ok (Some (mkScored (emb_problem_id emb) s))
  end.
Proof.
  intros Hq. unfold rowSimilarity, array_of.
  assert (Hrow : forall v,
             exists s,
               cosineSimilarity (Some queryEmbedding) (Some (repaired v))
               = Ok s /\
               match
                 cosineSimilarity (Some queryEmbedding)
                   (Some (if negb (length v =? length queryEmbedding)%nat
                          then if (length v <? 384)%nat
                               then v ++ zeros (384 - length v)
                               else slice v 384
                          else v))
               with
               | Throw e => Throw e
               | Ok s => Ok (Some (mkScored (emb_problem_id emb) s))
               end = Ok (Some (mkScored (emb_problem_id emb) s))).
  { intros v. rewrite (row_vector_repaired _ v Hq).
    destruct (cosineSimilarity_returns queryEmbedding (repaired v))
      as [s Hs].
    - rewrite Hq. symmetry. apply repaired_to_length.
    - exists s. now rewrite Hs. }
  destruct (emb_vector emb) as [v | s |].
  - apply Hrow.
  - destruct (JSON_parse s) as [[v |] |]; [apply Hrow | now left | now right].
  - now left.
Qed.

Lemma attachScores_error (top : list scored) (problems : list problem)
  (e : error) :
  attachScores top problems = Throw e -> e = TypeError.
Proof.
  induction problems as [| p problems IH]; simpl; [discriminate|].
  destruct (find_first _ top) as [m |]; [|now intros [= <-]].
  destruct (attachScores top problems) as [hits | e0]; [discriminate|].
  intros [= <-]. now apply IH.
Qed.



(** ** The Stack Overflow relevance heuristic *)

Lemma Zfloor_plus_IZR (x : R) (n : Z) :
  Zfloor (x + IZR n) = (Zfloor x + n)%Z.
Proof.
  apply Zfloor_eq. rewrite plus_IZR.
  pose proof (Zfloor_bound x). lra.
Qed.

Lemma Math_round_plus_IZR (x : R) (n : Z) :
  Math_round (x + IZR n) = Math_round x + IZR n.
Proof.
  unfold Math_round.
  replace (x + IZR n + / 2) with (x + / 2 + IZR n) by lra.
  now rewrite Zfloor_plus_IZR, plus_IZR.
Qed.

(** The bonuses are integers, and leave the rounding. *)
Ltac round_bonus base n :=
  match goal with
  | |- Math_round ?x = _ =>
      replace x with (base + IZR n) by (unfold base; lra);
      rewrite Math_round_plus_IZR; lra
  end.

(** C7.  The relevance of a Stack Overflow item is the rounded sum of five
    times the vote score, ten times the answer count and five times the
    decimal logarithm of the view count plus one, to which are added 20
    for an answered question, 30 for an accepted answer, and 10 exactly
    when the item is less than 365 days old. *)
Theorem calculateStackOverflowRelevance_terms :
  forall (now : R) (item : so_item),
    calculateStackOverflowRelevance now item
    = Math_round (5 * item_score item + 10 * item_answer_count item
                  + 5 * Math_log10 (item_view_count item + 1))
      + (if item_is_answered item then 20 else 0)
      + (if truthy_id (item_accepted_answer_id item) then 30 else 0)
      + (if Rlt_dec (now - item_creation_date item * 1000) one_year_ms
         then 10 else 0).
Proof.
  intros now item. unfold calculateStackOverflowRelevance, Rltb, one_year_ms.
  set (base := 5 * item_score item + 10 * item_answer_count item
               + 5 * Math_log10 (item_view_count item + 1)).
  assert (Hage : forall ms : R,
             ms / (1000 * 60 * 60 * 24) < 365 <->
             ms < 365 * 24 * 60 * 60 * 1000).
  { intros ms. split; intros H.
    - apply (Rmult_lt_compat_r (1000 * 60 * 60 * 24)) in H; [|lra].
      unfold Rdiv in H. rewrite Rmult_assoc, Rinv_l in H; lra.
    - apply (Rmult_lt_reg_r (1000 * 60 * 60 * 24)); [lra|].
      unfold Rdiv. rewrite Rmult_assoc, Rinv_l; lra. }
  destruct (Rlt_dec ((now - item_creation_date item * 1000)
                     / (1000 * 60 * 60 * 24)) 365) as [Hy | Hy];
    destruct (Rlt_dec (now - item_creation_date item * 1000)
                (365 * 24 * 60 * 60 * 1000)) as [Hy' | Hy'];
    try (apply Hage in Hy; contradiction);
    try (apply Hage in Hy'; contradiction);
    destruct (item_is_answered item);
    destruct (truthy_id (item_accepted_answer_id item));
    first [ round_bonus base 0%Z | round_bonus base 10%Z
          | round_bonus base 20%Z | round_bonus base 30%Z
          | round_bonus base 40%Z | round_bonus base 50%Z
          | round_bonus base 60%Z ].
Qed.

(** * Further properties *)

(** ** The encoder: batches, preloading, caching of the pipeline *)

Import EmbeddingBatch.

(** What one call of [generateEmbedding] does, case by case. *)
Lemma generateEmbedding_cases pipeline model text dimensions st :
  (trim text = EmptyString /\
   exists e,
     (e = TextNotNonEmptyString \/ e = TextEmptyAfterTrim) /\
     generateEmbedding pipeline model text dimensions st = (st, Throw e)) \/
  (trim text <> EmptyString /\ embedder st = false /\
   exists code,
     pipeline = Failed code /\
     generateEmbedding pipeline model text dimensions st
     = (mkState false (calls st ++ [LoadPipeline]), Throw (External code))) \/
  (trim text <> EmptyString /\
   (embedder st = true \/ pipeline = Returned tt) /\
   exists r,
     generateEmbedding pipeline model text dimensions st
     = (after_embedding st (trim text), r) /\
     ((exists code, model (trim text) = Failed code /\
                    r = Throw (External code)) \/
      (exists data v, model (trim text) = Returned data /\ r = Ok v /\
                      ((0 <= dimensions)%Z ->
                       v = repaired_to (Z.to_nat dimensions) data)))).
Proof.
  destruct (string_dec (trim text) EmptyString) as [Hempty | Hfull].
  { left. split; [exact Hempty|].
    unfold generateEmbedding. destruct (falsy_string text).
    - exists TextNotNonEmptyString. auto.
    - rewrite (proj2 (trim_empty text) Hempty).
      exists TextEmptyAfterTrim. auto. }
  right. unfold generateEmbedding.
  assert (Hfalsy : falsy_string text = false).
  { destruct text; [now rewrite trim_of_empty in Hfull | reflexivity]. }
  rewrite Hfalsy.
  destruct (String.length (trim text) =? 0)%nat eqn:Hlen;
    [now apply trim_empty in Hlen|].
  assert (Hrun : forall st1 : state,
             exists r,
               match await (model (trim text)) with
               | Throw e => (st1, Throw e)
               | Ok data =>
                   let embedding := data in
                   let len := Z.of_nat (length embedding) in
                   if (len =? dimensions)%Z then (st1, Ok embedding)
                   else if (len <? dimensions)%Z
                        then (st1, Ok (embedding
                                         ++ zeros (Z.to_nat (dimensions - len))))
                        else (st1, Ok (slice embedding dimensions))
               end = (st1, r) /\
               ((exists code, model (trim text) = Failed code /\
                              r = Throw (External code)) \/
                (exists data v,
                    model (trim text) = Returned data /\ r = Ok v /\
                    ((0 <= dimensions)%Z ->
                     v = repaired_to (Z.to_nat dimensions) data)))).
  { intros st1. destruct (model (trim text)) as [data | code]; cbn [await].
    - cbv zeta.
      exists (Ok (if (Z.of_nat (length data) =? dimensions)%Z then data
                  else if (Z.of_nat (length data) <? dimensions)%Z
                       then data ++ zeros (Z.to_nat (dimensions
                                                     - Z.of_nat (length data)))
                       else slice data dimensions)).
      split.
      + destruct (Z.of_nat (length data) =? dimensions)%Z;
          [|destruct (Z.of_nat (length data) <? dimensions)%Z];
          reflexivity.
      + right. exists data. eexists. split; [reflexivity|].
        split; [reflexivity|]. intros Hd.
        now rewrite <- (adjust_repaired dimensions data Hd).
    - exists (Throw (External code)). split; [reflexivity|].
      left. now exists code. }
  unfold initializeModel.
  destruct (embedder st) eqn:Hemb; [|destruct pipeline as [[] | code]].
  - right. split; [exact Hfull|]. split; [now left|].
    unfold after_embedding. rewrite Hemb. cbn [app embedder calls].
    apply Hrun.
  - right. split; [exact Hfull|]. split; [now right|].
    cbn [await]. unfold after_embedding. rewrite Hemb.
    cbn [embedder calls]. rewrite <- app_assoc. apply Hrun.
  - left. split; [exact Hfull|]. split; [reflexivity|].
    exists code. split; reflexivity.
Qed.

Lemma embedEach_app pipeline model (l1 l2 : list string) dimensions st acc :
  embedEach pipeline model (l1 ++ l2) dimensions st acc
  = match embedEach pipeline model l1 dimensions st acc with
    | (st1, Ok embeddings) =>
        embedEach pipeline model l2 dimensions st1 embeddings
    | (st1, Throw e) => (st1, Throw e)
    end.
Proof.
  revert st acc. induction l1 as [| text l1 IH]; intros st acc;
    [reflexivity|].
  cbn [app embedEach].
  destruct (generateEmbedding pipeline model text dimensions st)
    as [st1 [embedding | e]]; [apply IH | reflexivity].
Qed.

Lemma embedEach_success pipeline model texts dimensions st acc st' es :
  embedEach pipeline model texts dimensions st acc = (st', Ok es) ->
  exists es',
    es = acc ++ es' /\
    length es' = length texts /\
    ((0 <= dimensions)%Z ->
     Forall (fun e => length e = Z.to_nat dimensions) es') /\
    calls st'
    = calls st
      ++ (if embedder st then []
          else match texts with
               | [] => []
               | _ :: _ => [LoadPipeline]
               end)
      ++ map (fun text => Infer (trim text)) texts /\
    embedder st' = embedder st || negb (length texts =? 0)%nat.
Proof.
  revert st acc. induction texts as [| text texts IH]; intros st acc H.
  - injection H as Hst Hes. subst st' es. exists []. rewrite !app_nil_r.
    repeat split; try constructor.
    + now destruct (embedder st); rewrite ?app_nil_r.
    + cbn. now rewrite orb_false_r.
  - cbn [embedEach] in H.
    destruct (generateEmbedding pipeline model text dimensions st)
      as [st1 [embedding | e]] eqn:Hgen; [|discriminate].
    destruct (IH _ _ H) as [es' [-> [Hlen [Hdim [Hcalls Hemb]]]]].
    exists (embedding :: es'). rewrite <- app_assoc.
    split; [reflexivity|]. split; [simpl; lia|].
    split.
    { intros Hd. constructor; [|now apply Hdim].
      now apply (generateEmbedding_length _ _ _ _ _ _ _ Hgen). }
    destruct (generateEmbedding_cases pipeline model text dimensions st)
      as [[_ [e [_ He]]] | [[_ [_ [c [_ He]]]] | [_ [_ [r [Hr _]]]]]];
      rewrite Hgen in *; try discriminate.
    injection Hr as -> <-.
    rewrite Hcalls, Hemb. unfold after_embedding. cbn [embedder calls map].
    rewrite orb_true_r. split; [|reflexivity].
    rewrite <- !app_assoc. reflexivity.
Qed.

(** X1.  A batch that succeeds returns one embedding for each text, in
    the order of the texts, each of [dimensions] components. *)
Theorem generateEmbeddingsBatch_dimensions :
  forall (pipeline : outcome unit) (model : string -> outcome (list R))
         (texts : list string) (dimensions : Z) (st st' : state)
         (embeddings : list (list R)),
    generateEmbeddingsBatch pipeline model texts dimensions st
    = (st', Ok embeddings) ->
    (0 <= dimensions)%Z ->
    length embeddings = length texts /\
    Forall (fun e => length e = Z.to_nat dimensions) embeddings.
Proof.
  intros pipeline model texts dimensions st st' embeddings H Hd.
  destruct (embedEach_success _ _ _ _ _ _ _ _ H)
    as [es' [-> [Hlen [Hdim _]]]].
  split; [exact Hlen | now apply Hdim].
Qed.

Lemma generateEmbeddingsBatch_dimensions_witness :
  let model := fun _ : string => Returned [1] in
  generateEmbeddingsBatch (Returned tt) model ["a"; " b "]%string 2
    (mkState false [])
  = (mkState true [LoadPipeline; Infer "a"; Infer "b"],
     Ok [[1; 0]; [1; 0]]) /\
  (0 <= 2)%Z /\
  length [[1; 0]; [1; 0]] = 2%nat.
Proof.
  intros model.
  assert (H : generateEmbeddingsBatch (Returned tt) model ["a"; " b "]%string
                2 (mkState false [])
              = (mkState true [LoadPipeline; Infer "a"; Infer "b"],
                 Ok [[1; 0]; [1; 0]])) by reflexivity.
  split; [exact H|]. split; [lia|].
  apply (generateEmbeddingsBatch_dimensions _ _ _ _ _ _ _ H). lia.
Defined.

(** X2.  A batch that succeeds loads the pipeline once, before the first
    text and only when no model is cached, and then runs one inference for
    each text, in order, on the trimmed text. *)
Theorem generateEmbeddingsBatch_calls :
  forall (pipeline : outcome unit) (model : string -> outcome (list R))
         (texts : list string) (dimensions : Z) (st st' : state)
         (embeddings : list (list R)),
    generateEmbeddingsBatch pipeline model texts dimensions st
    = (st', Ok embeddings) ->
    calls st'
    = calls st
      ++ (if embedder st then []
          else match texts with
               | [] => []
               | _ :: _ => [LoadPipeline]
               end)
      ++ map (fun text => Infer (trim text)) texts /\
    embedder st' = embedder st || negb (length texts =? 0)%nat.
Proof.
  intros pipeline model texts dimensions st st' embeddings H.
  destruct (embedEach_success _ _ _ _ _ _ _ _ H)
    as [es' [_ [_ [_ Hcalls]]]].
  exact Hcalls.
Qed.

Lemma generateEmbeddingsBatch_calls_witness :
  let model := fun _ : string => Returned [1] in
  generateEmbeddingsBatch (Returned tt) model ["a"; " b "]%string 2
    (mkState false [])
  = (mkState true [LoadPipeline; Infer "a"; Infer "b"],
     Ok [[1; 0]; [1; 0]]) /\
  [LoadPipeline; Infer "a"; Infer "b"]
  = [] ++ [LoadPipeline] ++ map (fun text => Infer (trim text))
                                ["a"; " b "]%string.
Proof.
  intros model.
  assert (H : generateEmbeddingsBatch (Returned tt) model ["a"; " b "]%string
                2 (mkState false [])
              = (mkState true [LoadPipeline; Infer "a"; Infer "b"],
                 Ok [[1; 0]; [1; 0]])) by reflexivity.
  split; [exact H|].
  exact (proj1 (generateEmbeddingsBatch_calls _ _ _ _ _ _ _ H)).
Defined.

(** X3.  A batch is all or nothing: when the texts before a text that is
    empty after trimming are embedded, the batch throws the empty-input
    error at that text, in the state the earlier texts left; the
    embeddings made so far are lost and the later texts are never sent to
    the model. *)
Theorem generateEmbeddingsBatch_stops_at_blank :
  forall (pipeline : outcome unit) (model : string -> outcome (list R))
         (before after : list string) (blank : string) (dimensions : Z)
         (st st1 : state) (embeddings : list (list R)),
    generateEmbeddingsBatch pipeline model before dimensions st
    = (st1, Ok embeddings) ->
    trim blank = EmptyString ->
    exists e,
      (e = TextNotNonEmptyString \/ e = TextEmptyAfterTrim) /\
      generateEmbeddingsBatch pipeline model (before ++ blank :: after)
        dimensions st = (st1, Throw e).
Proof.
  intros pipeline model before after blank dimensions st st1 embeddings
         Hbefore Hblank.
  unfold generateEmbeddingsBatch in *. rewrite embedEach_app, Hbefore.
  cbn [embedEach].
  destruct (generateEmbedding_cases pipeline model blank dimensions st1)
    as [[_ [e [He Hgen]]] | [[Hfull _] | [Hfull _]]];
    try contradiction.
  exists e. split; [exact He|]. now rewrite Hgen.
Qed.

Lemma generateEmbeddingsBatch_stops_at_blank_witness :
  let model := fun _ : string => Returned [1] in
  generateEmbeddingsBatch (Returned tt) model ["a"]%string 2
    (mkState false [])
  = (mkState true [LoadPipeline; Infer "a"], Ok [[1; 0]]) /\
  trim "  " = EmptyString /\
  exists e,
    (e = TextNotNonEmptyString \/ e = TextEmptyAfterTrim) /\
    generateEmbeddingsBatch (Returned tt) model ["a"; "  "; "c"]%string 2
      (mkState false [])
    = (mkState true [LoadPipeline; Infer "a"], Throw e).
Proof.
  intros model.
  assert (H : generateEmbeddingsBatch (Returned tt) model ["a"]%string 2
                (mkState false [])
              = (mkState true [LoadPipeline; Infer "a"], Ok [[1; 0]]))
    by reflexivity.
  split; [exact H|]. split; [reflexivity|].
  exact (generateEmbeddingsBatch_stops_at_blank (Returned tt) model
           ["a"]%string ["c"]%string "  " 2 _ _ _ H eq_refl).
Defined.

Lemma preloadModel_step (pipeline : outcome unit) (st : state) :
  embedder (preloadModel pipeline st)
  = embedder st || match pipeline with
                   | Returned _ => true
                   | Failed _ => false
                   end /\
  calls (preloadModel pipeline st)
  = calls st ++ (if embedder st then [] else [LoadPipeline]).
Proof.
  unfold preloadModel, initializeModel.
  destruct (embedder st) eqn:He.
  - cbn [fst]. rewrite He, app_nil_r. now split.
  - destruct pipeline as [[] | code]; now split.
Qed.

Lemma preloadModel_iter_embedder (pipeline : outcome unit) (n : nat)
  (st : state) :
  embedder (Nat.iter n (preloadModel pipeline) st)
  = embedder st
    || match pipeline with
       | Returned _ => negb (n =? 0)%nat
       | Failed _ => false
       end.
Proof.
  induction n as [| n IH]; [|rewrite Nat.iter_succ].
  - destruct pipeline; simpl; now rewrite orb_false_r.
  - rewrite (proj1 (preloadModel_step _ _)), IH.
    destruct (embedder st), pipeline, n; reflexivity.
Qed.

(** X4.  Preloading caches a pipeline that loads and retries one that
    fails: [n] calls of [preloadModel] without a cached model make one
    load when the pipeline loads, and [n] loads when it fails; with a
    cached model they make none. *)
Theorem preloadModel_loads :
  forall (pipeline : outcome unit) (n : nat) (st : state),
    let st' := Nat.iter n (preloadModel pipeline) st in
    calls st'
    = calls st
      ++ repeat LoadPipeline
           (if embedder st then 0%nat
            else match pipeline with
                 | Returned _ => Nat.min n 1
                 | Failed _ => n
                 end) /\
    embedder st'
    = embedder st
      || match pipeline with
         | Returned _ => negb (n =? 0)%nat
         | Failed _ => false
         end /\
    info_loaded (getModelInfo st') = embedder st'.
Proof.
  intros pipeline n st. cbv zeta.
  split; [|split; [apply preloadModel_iter_embedder | reflexivity]].
  induction n as [| n IH]; [|rewrite Nat.iter_succ].
  - destruct (embedder st), pipeline; simpl; now rewrite app_nil_r.
  - rewrite (proj2 (preloadModel_step _ _)), IH,
      preloadModel_iter_embedder, <- app_assoc.
    f_equal.
    destruct (embedder st); [reflexivity|]. cbn [orb].
    destruct pipeline as [[] | code].
    + destruct n as [| [| n]]; reflexivity.
    + change [LoadPipeline] with (repeat LoadPipeline 1).
      rewrite <- repeat_app. f_equal. lia.
Qed.

(** ** The similarity engine in exact arithmetic *)

Lemma cosineSimilarity_value (a b : list R) :
  length a = length b ->
  cosineSimilarity (Some a) (Some b)
  = if Reqb (norm a * norm b) 0 then Ok 0
    else Ok (dot a b / (norm a * norm b)).
Proof.
  intros Hlen. unfold cosineSimilarity, cosineSimilarityWith.
  rewrite Hlen, Nat.eqb_refl. cbn [negb].
  rewrite accumulate_dot_from, !dot_from_plus, !Rplus_0_l by assumption.
  reflexivity.
Qed.

Lemma dot_comm (a b : list R) : dot a b = dot b a.
Proof.
  revert b. induction a as [| x a IH]; intros [| y b]; try reflexivity.
  rewrite !dot_cons, IH. lra.
Qed.

Lemma norm_nonneg (a : list R) : 0 <= norm a.
Proof. apply sqrt_pos. Qed.

Lemma norm_sqr (a : list R) : norm a * norm a = dot a a.
Proof. apply sqrt_sqrt, dot_self_nonneg. Qed.

Lemma norm_pos (a : list R) : ~ zero_vector a -> 0 < norm a.
Proof.
  intros H. pose proof (norm_nonneg a) as Hnn.
  destruct (Req_dec_T (norm a) 0) as [Hz | Hnz]; [|lra].
  now apply norm_zero in Hz.
Qed.

(** Cauchy-Schwarz. *)
Lemma dot_sqr_le (a b : list R) :
  length a = length b -> dot a b * dot a b <= dot a a * dot b b.
Proof.
  revert b. induction a as [| x a IH]; intros [| y b] Hlen;
    try discriminate.
  - unfold dot. simpl. lra.
  - injection Hlen as Hlen. specialize (IH b Hlen).
    rewrite !dot_cons.
    pose proof (dot_self_nonneg a) as HA.
    pose proof (dot_self_nonneg b) as HB.
    set (d := dot a b) in *. set (A := dot a a) in *.
    set (B := dot b b) in *.
    assert (Hs : 0 <= x * x * B + y * y * A) by nra.
    assert (Hsq : (2 * x * y * d) * (2 * x * y * d)
                  <= (x * x * B + y * y * A) * (x * x * B + y * y * A)).
    { assert (H1 : (x * y) * (x * y) * (d * d)
                   <= (x * y) * (x * y) * (A * B)).
      { apply Rmult_le_compat_l; [nra | exact IH]. }
      pose proof (Rle_0_sqr (x * x * B - y * y * A)) as H2.
      unfold Rsqr in H2. lra. }
    assert (Hle : 2 * x * y * d <= x * x * B + y * y * A).
    { destruct (Rle_lt_dec (2 * x * y * d) (x * x * B + y * y * A))
        as [H | H]; [exact H|].
      exfalso.
      assert (H3 : (x * x * B + y * y * A) * (x * x * B + y * y * A)
                   < (2 * x * y * d) * (2 * x * y * d)) by nra.
      lra. }
    lra.
Qed.

Lemma dot_abs_le (a b : list R) :
  length a = length b -> Rabs (dot a b) <= norm a * norm b.
Proof.
  intros Hlen. unfold norm.
  rewrite <- sqrt_mult by apply dot_self_nonneg.
  rewrite <- sqrt_Rsqr_abs. apply sqrt_le_1_alt.
  unfold Rsqr. now apply dot_sqr_le.
Qed.

Lemma cosineSimilarity_self (v : list R) :
  ~ zero_vector v -> cosineSimilarity (Some v) (Some v) = Ok 1.
Proof.
  intros Hv. rewrite cosineSimilarity_value by reflexivity.
  pose proof (norm_pos v Hv) as Hpos. unfold Reqb.
  destruct (Req_dec_T (norm v * norm v) 0) as [Hz | Hnz]; [nra|].
  f_equal. rewrite norm_sqr in *. now apply Rdiv_diag.
Qed.

Lemma dot_opp_r (a b : list R) : dot a (map Ropp b) = - dot a b.
Proof.
  revert b. induction a as [| x a IH]; intros [| y b];
    try (unfold dot; simpl; lra).
  simpl map. rewrite !dot_cons, IH. lra.
Qed.

Lemma dot_opp_opp (a : list R) : dot (map Ropp a) (map Ropp a) = dot a a.
Proof.
  induction a as [| x a IH]; [reflexivity|].
  simpl map. rewrite !dot_cons, IH. lra.
Qed.

Lemma dot_scale_l (k : R) (a b : list R) :
  dot (map (Rmult k) a) b = k * dot a b.
Proof.
  revert b. induction a as [| x a IH]; intros [| y b];
    try (unfold dot; simpl; lra).
  simpl map. rewrite !dot_cons, IH. lra.
Qed.

Lemma dot_scale_scale (k : R) (a : list R) :
  dot (map (Rmult k) a) (map (Rmult k) a) = k * k * dot a a.
Proof.
  induction a as [| x a IH]; [unfold dot; simpl; lra|].
  simpl map. rewrite !dot_cons, IH. lra.
Qed.

Lemma norm_scale (k : R) (a : list R) :
  0 <= k -> norm (map (Rmult k) a) = k * norm a.
Proof.
  intros Hk. unfold norm. rewrite dot_scale_scale.
  rewrite sqrt_mult; [|nra | apply dot_self_nonneg].
  now rewrite sqrt_square.
Qed.

(** X5.  [cosineSimilarity] is symmetric in its two arguments, errors
    included. *)
Theorem cosineSimilarity_symmetric :
  forall vec1 vec2 : option (list R),
    cosineSimilarity vec1 vec2 = cosineSimilarity vec2 vec1.
Proof.
  intros [a |] [b |]; try reflexivity.
  destruct (Nat.eq_dec (length a) (length b)) as [Hlen | Hlen].
  - rewrite (cosineSimilarity_value a b Hlen),
      (cosineSimilarity_value b a (eq_sym Hlen)).
    now rewrite (dot_comm a b), (Rmult_comm (norm a)).
  - unfold cosineSimilarity, cosineSimilarityWith.
    destruct (Nat.eqb_spec (length a) (length b)); [contradiction|].
    destruct (Nat.eqb_spec (length b) (length a)); [now symmetry in e|].
    reflexivity.
Qed.

(** X6.  A vector that is not all zeros has similarity 1 with itself and
    -1 with its opposite: the score is not confined to the range 0 to 1
    that the comment of the function announces. *)
Theorem cosineSimilarity_self_and_opposite :
  forall v : list R,
    ~ zero_vector v ->
    cosineSimilarity (Some v) (Some v) = Ok 1 /\
    cosineSimilarity (Some v) (Some (map Ropp v)) = Ok (-1).
Proof.
  intros v Hv. split; [now apply cosineSimilarity_self|].
  rewrite cosineSimilarity_value by now rewrite length_map.
  pose proof (norm_pos v Hv) as Hpos.
  assert (Hn : norm (map Ropp v) = norm v).
  { unfold norm. now rewrite dot_opp_opp. }
  rewrite Hn, dot_opp_r. unfold Reqb.
  destruct (Req_dec_T (norm v * norm v) 0) as [Hz | Hnz]; [nra|].
  f_equal. rewrite norm_sqr in *. field. exact Hnz.
Qed.

Lemma cosineSimilarity_self_and_opposite_witness :
  ~ zero_vector [3; 4] /\
  cosineSimilarity (Some [3; 4]) (Some [3; 4]) = Ok 1 /\
  cosineSimilarity (Some [3; 4]) (Some [-3; -4]) = Ok (-1).
Proof.
  assert (H : ~ zero_vector [3; 4]).
  { intros Hz. inversion Hz as [| ? ? H3 _]. lra. }
  split; [exact H|].
  exact (cosineSimilarity_self_and_opposite [3; 4] H).
Defined.

Lemma cosineSimilarity_in_range (a b : list R) (s : R) :
  cosineSimilarity (Some a) (Some b) = Ok s -> -1 <= s <= 1.
Proof.
  destruct (Nat.eq_dec (length a) (length b)) as [Hlen | Hlen].
  - rewrite (cosineSimilarity_value a b Hlen). unfold Reqb.
    destruct (Req_dec_T (norm a * norm b) 0) as [Hz | Hnz];
      intros [= <-]; [lra|].
    pose proof (dot_abs_le a b Hlen) as Habs.
    pose proof (norm_nonneg a) as Ha. pose proof (norm_nonneg b) as Hb.
    assert (Hm : 0 < norm a * norm b) by nra.
    assert (Hdot : - (norm a * norm b) <= dot a b <= norm a * norm b).
    { revert Habs. unfold Rabs. destruct (Rcase_abs (dot a b)); lra. }
    split.
    + apply (Rmult_le_reg_r (norm a * norm b)); [exact Hm|].
      unfold Rdiv. rewrite Rmult_assoc, Rinv_l by exact Hnz. lra.
    + apply (Rmult_le_reg_r (norm a * norm b)); [exact Hm|].
      unfold Rdiv. rewrite Rmult_assoc, Rinv_l by exact Hnz. lra.
  - unfold cosineSimilarity, cosineSimilarityWith.
    destruct (Nat.eqb_spec (length a) (length b)); [contradiction|].
    discriminate.
Qed.

(** X7.  Whatever the two vectors, a similarity that [cosineSimilarity]
    returns lies between -1 and 1. *)
Theorem cosineSimilarity_bounds :
  forall (vec1 vec2 : option (list R)) (s : R),
    cosineSimilarity vec1 vec2 = Ok s ->
    -1 <= s <= 1.
Proof.
  intros [a |] [b |] s; try discriminate.
  apply cosineSimilarity_in_range.
Qed.

Lemma cosineSimilarity_bounds_witness :
  cosineSimilarity (Some [3; 4]) (Some [3; 4]) = Ok 1 /\ -1 <= 1 <= 1.
Proof.
  assert (H : cosineSimilarity (Some [3; 4]) (Some [3; 4]) = Ok 1).
  { apply cosineSimilarity_self. intros Hz.
    inversion Hz as [| ? ? H3 _]. lra. }
  split; [exact H|].
  exact (cosineSimilarity_bounds _ _ _ H).
Defined.

(** X8.  The similarity does not depend on the length of the vectors:
    multiplying one of them by a positive number leaves it unchanged. *)
Theorem cosineSimilarity_scale_invariant :
  forall (k : R) (a b : list R),
    0 < k ->
    cosineSimilarity (Some (map (Rmult k) a)) (Some b)
    = cosineSimilarity (Some a) (Some b).
Proof.
  intros k a b Hk.
  destruct (Nat.eq_dec (length a) (length b)) as [Hlen | Hlen].
  - rewrite (cosineSimilarity_value a b Hlen), cosineSimilarity_value
      by now rewrite length_map.
    rewrite norm_scale, dot_scale_l by lra.
    pose proof (norm_nonneg a) as Ha. pose proof (norm_nonneg b) as Hb.
    unfold Reqb.
    destruct (Req_dec_T (k * norm a * norm b) 0) as [Hz | Hnz];
      destruct (Req_dec_T (norm a * norm b) 0) as [Hz' | Hnz'];
      try reflexivity.
    + exfalso. apply Hnz'. rewrite Rmult_assoc in Hz.
      apply Rmult_integral in Hz. lra.
    + exfalso. apply Hnz. rewrite Rmult_assoc, Hz'. lra.
    + f_equal. field.
      repeat split; try lra; intros H0; apply Hnz'; rewrite H0; lra.
  - unfold cosineSimilarity, cosineSimilarityWith. rewrite length_map.
    destruct (Nat.eqb_spec (length a) (length b)); [contradiction|].
    reflexivity.
Qed.

Lemma cosineSimilarity_scale_invariant_witness :
  0 < 2 /\
  cosineSimilarity (Some [2 * 3; 2 * 4]) (Some [1; 0])
  = cosineSimilarity (Some [3; 4]) (Some [1; 0]).
Proof.
  split; [lra|].
  apply (cosineSimilarity_scale_invariant 2 [3; 4] [1; 0]). lra.
Defined.

(** ** The whole of [semanticSearch] *)

Lemma find_first_some {A} (p : A -> bool) (l : list A) (a : A) :
  find_first p l = Some a ->
  p a = true /\
  exists before after,
    l = before ++ a :: after /\ forall x, In x before -> p x = false.
Proof.
  induction l as [| x l IH]; [discriminate|]. simpl.
  destruct (p x) eqn:Hx.
  - intros [= <-]. split; [exact Hx|]. exists [], l. now split.
  - intros H. destruct (IH H) as [Ha [before [after [-> Hb]]]].
    split; [exact Ha|]. exists (x :: before), after.
    split; [reflexivity|]. intros y [<- | Hy]; auto.
Qed.

Lemma find_first_none {A} (p : A -> bool) (l : list A) :
  find_first p l = None <-> forall x, In x l -> p x = false.
Proof.
  induction l as [| x l IH]; simpl; [easy|].
  destruct (p x) eqn:Hx; split; intros H.
  - discriminate.
  - specialize (H x (or_introl eq_refl)). congruence.
  - intros y [<- | Hy]; [exact Hx | now apply IH].
  - apply IH. auto.
Qed.

Lemma Forall2_In_r {A B} (P : A -> B -> Prop) (l : list A) (l' : list B)
  (b : B) :
  Forall2 P l l' -> In b l' -> exists a, In a l /\ P a b.
Proof.
  induction 1 as [| a b' l l' HP _ IH]; [easy|].
  intros [<- | Hb].
  - exists a. split; [now left | exact HP].
  - destruct (IH Hb) as [a' [Ha HP']]. exists a'. split; [now right|].
    exact HP'.
Qed.

(** The hits [attachScores] makes, problem by problem. *)
Lemma attachScores_hits (top : list scored) (problems : list problem)
  (hits : list hit) :
  attachScores top problems = Ok hits ->
  Forall2 (fun p h =>
             hit_problem h = p /\
             exists m,
               find_first (fun m => (problem_id m =? id p)%Z) top = Some m /\
               hit_similarity h = similarity m /\
               hit_relevance_score h
               = Some (Math_round (similarity m * 100)))
          problems hits.
Proof.
  revert hits. induction problems as [| p problems IH]; intros hits; simpl.
  - intros [= <-]. constructor.
  - destruct (find_first _ top) as [m |] eqn:Hfind; [|discriminate].
    destruct (attachScores top problems) as [hits' | e]; [|discriminate].
    intros [= <-]. constructor; [|now apply IH].
    split; [reflexivity|]. now exists m.
Qed.

Lemma attachScores_foreign (top : list scored) (problems : list problem) :
  (exists p, In p problems /\ ~ In (id p) (map problem_id top)) ->
  attachScores top problems = Throw TypeError.
Proof.
  intros [p [Hin Hid]].
  destruct (attachScores top problems) as [hits | e] eqn:Hattach;
    [|f_equal; eapply attachScores_error, Hattach].
  exfalso. apply attachScores_hits in Hattach.
  assert (Hfound : exists m,
             find_first (fun m => (problem_id m =? id p)%Z) top = Some m).
  { clear Hid. induction Hattach as [| q h ps hs [_ [m [Hfind _]]] _ IH];
      [easy|].
    destruct Hin as [-> | Hin]; [now exists m | now apply IH]. }
  destruct Hfound as [m Hfind].
  apply find_first_some in Hfind.
  destruct Hfind as [Hm [before [after [-> _]]]].
  apply Z.eqb_eq in Hm. apply Hid. rewrite <- Hm.
  apply in_map, in_or_app. right. now left.
Qed.

(** Every element of [similarities] is the similarity of the query and a
    well-formed row. *)
Lemma similarities_In JSON_parse (queryEmbedding : list R)
  (embeddings : list embedding_row) (m : scored) :
  length queryEmbedding = D ->
  In m (similarities JSON_parse queryEmbedding embeddings) ->
  exists emb v,
    In emb embeddings /\ emb_problem_id emb = problem_id m /\
    array_of JSON_parse (emb_vector emb) = Some v /\
    cosineSimilarity (Some queryEmbedding) (Some (repaired v))
    = Ok (similarity m).
Proof.
  intros Hq. unfold similarities.
  induction embeddings as [| emb embeddings IH]; [easy|].
  cbn [map filter_not_null]. unfold rowSimilarityOrNull at 1.
  pose proof (rowSimilarity_cases JSON_parse queryEmbedding emb Hq) as Hrow.
  destruct (array_of JSON_parse (emb_vector emb)) as [v |] eqn:Harr.
  - destruct Hrow as [s [Hs ->]]. intros [<- | Hin].
    + exists emb, v. repeat split; auto. now left.
    + destruct (IH Hin) as [emb' [v' [H1 H2]]].
      exists emb', v'. split; [now right | exact H2].
  - assert (Hnull : match rowSimilarity JSON_parse queryEmbedding emb with
                    | Ok s => s
                    | Throw _ => None
                    end = None) by now destruct Hrow as [-> | ->].
    rewrite Hnull. intros Hin.
    destruct (IH Hin) as [emb' [v' [H1 H2]]].
    exists emb', v'. split; [now right | exact H2].
Qed.

Lemma topMatches_nil (threshold : R) (limit : Z) :
  topMatches [] threshold limit = [].
Proof. unfold topMatches, slice. simpl. now rewrite firstn_nil. Qed.

(** The steps of a search that returns. *)
Lemma semanticSearch_success JSON_parse pipeline model selectEmbeddings
  selectProblems query limit threshold st st' hits :
  semanticSearch JSON_parse pipeline model selectEmbeddings selectProblems
    query limit threshold st = (st', Ok hits) ->
  exists queryEmbedding embeddings,
    generateEmbedding pipeline model query 384 st = (st', Ok queryEmbedding) /\
    selectEmbeddings = Some embeddings /\
    let top :=
      topMatches (similarities JSON_parse queryEmbedding embeddings)
        threshold limit in
    (top = [] /\ hits = []) \/
    (exists problems raw,
        selectProblems (map problem_id top) = Some problems /\
        attachScores top problems = Ok raw /\
        hits = sort (by_key_desc hit_similarity) raw).
Proof.
  unfold semanticSearch. destruct (falsy_string query); [discriminate|].
  destruct (generateEmbedding pipeline model query 384 st)
    as [st1 [q | e]]; [|discriminate].
  destruct selectEmbeddings as [embeddings |]; [|discriminate].
  intros H. exists q, embeddings.
  destruct embeddings as [| emb embeddings].
  - injection H as <- <-. repeat split. left.
    split; [apply topMatches_nil | reflexivity].
  - destruct (topMatches (similarities JSON_parse q (emb :: embeddings))
                threshold limit) as [| m top] eqn:Htop.
    + injection H as <- <-. repeat split. now left.
    + destruct (selectProblems (map problem_id (m :: top)))
        as [problems |]; [|discriminate].
      destruct (attachScores (m :: top) problems) as [raw | e] eqn:Hraw;
        [|discriminate].
      injection H as <- <-. repeat split. right.
      now exists problems, raw.
Qed.

Lemma topMatches_In (sims : list scored) (threshold : R) (limit : Z)
  (m : scored) :
  In m (topMatches sims threshold limit) ->
  In m sims /\ threshold <= similarity m.
Proof.
  unfold topMatches. intros Hm. apply slice_In in Hm.
  apply (Permutation_in _ (sort_perm similarity _)) in Hm.
  apply filter_In in Hm. now rewrite Rgeb_true in Hm.
Qed.


Lemma Math_round_near (x : R) : Rabs (Math_round x - x) <= / 2.
Proof.
  unfold Math_round. pose proof (Zfloor_bound (x + / 2)) as H.
  apply Rabs_le. lra.
Qed.

Lemma Math_round_nonneg (x : R) : 0 <= x -> 0 <= Math_round x.
Proof.
  intros Hx. unfold Math_round. apply IZR_le, Zfloor_lub. simpl. lra.
Qed.

(** A search that runs to the end: a model that answers with one
    component, a stored array equal to it and a stored text that does not
    parse. *)
Lemma semanticSearch_example (selectProblems : list Z -> option (list problem))
  (problems : list problem) :
  selectProblems [10%Z] = Some problems ->
  semanticSearch (fun _ : string => None) (Returned tt)
    (fun _ : string => Returned [1])
    (Some [mkRow 1 10 (NativeArray [1]); mkRow 2 20 (Text "[0.1,")])
    selectProblems "vpn" 5 (1 / 10) (mkState false [])
  = (after_embedding (mkState false []) "vpn",
     match attachScores [mkScored 10 1] problems with
     | Throw e => Throw e
     | Ok results => Ok (sort (by_key_desc hit_similarity) results)
     end) /\
  generateEmbedding (Returned tt) (fun _ : string => Returned [1]) "vpn" 384
    (mkState false [])
  = (after_embedding (mkState false []) "vpn", Ok (repaired [1])) /\
  topMatches
    (similarities (fun _ : string => None) (repaired [1])
       [mkRow 1 10 (NativeArray [1]); mkRow 2 20 (Text "[0.1,")])
    (1 / 10) 5
  = [mkScored 10 1].
Proof.
  intros Hproblems.
  set (JSON_parse := fun _ : string => @None json).
  set (model := fun _ : string => Returned [1]).
  set (rows := [mkRow 1 10 (NativeArray [1]); mkRow 2 20 (Text "[0.1,")]).
  assert (Hembed :
            generateEmbedding (Returned tt) model "vpn" 384 (mkState false [])
            = (after_embedding (mkState false []) "vpn", Ok (repaired [1]))).
  { apply generateEmbedding_success;
      [discriminate | now right | reflexivity | lia]. }
  assert (Hq : length (repaired [1]) = D) by apply repaired_to_length.
  assert (Hsims : similarities JSON_parse (repaired [1]) rows
                  = [mkScored 10 1]).
  { unfold similarities, rows. cbn [map filter_not_null].
    unfold rowSimilarityOrNull.
    pose proof (rowSimilarity_cases JSON_parse (repaired [1])
                  (mkRow 1 10 (NativeArray [1])) Hq) as H1.
    cbn [array_of emb_vector emb_problem_id] in H1.
    destruct H1 as [s [Hs ->]].
    rewrite cosineSimilarity_self in Hs.
    - injection Hs as <-.
      pose proof (rowSimilarity_cases JSON_parse (repaired [1])
                    (mkRow 2 20 (Text "[0.1,")) Hq) as H2.
      cbn [array_of emb_vector JSON_parse] in H2.
      now destruct H2 as [-> | ->].
    - intros Hz. unfold repaired, repaired_to, D in Hz. simpl in Hz.
      inversion Hz as [| ? ? H1 _]. lra. }
  assert (Htop : topMatches (similarities JSON_parse (repaired [1]) rows)
                   (1 / 10) 5 = [mkScored 10 1]).
  { rewrite Hsims. unfold topMatches, Rgeb, slice, sort. decide_R.
    reflexivity. }
  split; [|split; [exact Hembed | exact Htop]].
  unfold semanticSearch. cbn [falsy_string]. rewrite Hembed.
  fold rows. unfold rows at 1. fold rows. rewrite Htop.
  cbn [map problem_id]. rewrite Hproblems.
  now destruct (attachScores [mkScored 10 1] problems).
Qed.

(** C3 at a limit of -1, which the route of the combined search hands to
    [semanticSearch] unchecked.  Three stored vectors match the query;
    [slice(0, -1)] drops the last of the three ranked candidates, and the
    search returns two hits where at most [limit] were to be returned. *)
Theorem semanticSearch_negative_limit :
  let rows := [mkRow 1 10 (NativeArray [1]); mkRow 2 20 (NativeArray [1]);
               mkRow 3 30 (NativeArray [1])] in
  let selectProblems := fun ids : list Z =>
        Some (map (fun key => mkProblem key "t" "d") ids) in
  topMatches (similarities (fun _ : string => None) (repaired [1]) rows)
    (1 / 10) (-1)
  = [mkScored 10 1; mkScored 20 1] /\
  exists hits,
    semanticSearch (fun _ : string => None) (Returned tt)
      (fun _ : string => Returned [1]) (Some rows) selectProblems "vpn" (-1)
      (1 / 10) (mkState false [])
    = (after_embedding (mkState false []) "vpn", Ok hits) /\
    map (fun h => id (hit_problem h)) hits = [10%Z; 20%Z] /\
    ~ (Z.of_nat (length hits) <= -1)%Z.
Proof.
  intros rows selectProblems.
  set (JSON_parse := fun _ : string => @None json).
  set (model := fun _ : string => Returned [1]).
  assert (Hembed :
            generateEmbedding (Returned tt) model "vpn" 384 (mkState false [])
            = (after_embedding (mkState false []) "vpn", Ok (repaired [1]))).
  { apply generateEmbedding_success;
      [discriminate | now right | reflexivity | lia]. }
  assert (Hq : length (repaired [1]) = D) by apply repaired_to_length.
  assert (Hrow : forall key problemId,
             rowSimilarityOrNull JSON_parse (repaired [1])
               (mkRow key problemId (NativeArray [1]))
             = Some (mkScored problemId 1)).
  { intros key problemId. unfold rowSimilarityOrNull.
    pose proof (rowSimilarity_cases JSON_parse (repaired [1])
                  (mkRow key problemId (NativeArray [1])) Hq) as H1.
    cbn [array_of emb_vector emb_problem_id] in H1.
    destruct H1 as [s [Hs ->]].
    rewrite cosineSimilarity_self in Hs; [now injection Hs as <-|].
    intros Hz. unfold repaired, repaired_to, D in Hz. simpl in Hz.
    inversion Hz as [| ? ? H1 _]. lra. }
  assert (Hsims : similarities JSON_parse (repaired [1]) rows
                  = [mkScored 10 1; mkScored 20 1; mkScored 30 1]).
  { unfold similarities, rows. cbn [map]. now rewrite !Hrow. }
  assert (Htop : topMatches (similarities JSON_parse (repaired [1]) rows)
                   (1 / 10) (-1) = [mkScored 10 1; mkScored 20 1]).
  { rewrite Hsims. unfold topMatches, Rgeb, slice, sort. decide_R.
    reflexivity. }
  split; [exact Htop|].
  eexists. split; [|split].
  - unfold semanticSearch. cbn [falsy_string]. fold model. rewrite Hembed.
    unfold rows at 1. fold rows. fold JSON_parse. rewrite Htop.
    unfold selectProblems, sort. decide_R. reflexivity.
  - reflexivity.
  - simpl. lia.
Qed.

Lemma semanticSearch_hit_facts :
  forall (JSON_parse : string -> option json)
         (pipeline : outcome unit) (model : string -> outcome (list R))
         (selectEmbeddings : option (list embedding_row))
         (selectProblems : list Z -> option (list problem))
         (query : string) (limit : Z) (threshold : R) (st st' : state)
         (hits : list hit),
    semanticSearch JSON_parse pipeline model selectEmbeddings selectProblems
      query limit threshold st = (st', Ok hits) ->
    StronglySorted (descending hit_similarity) hits /\
    forall h, In h hits ->
      threshold <= hit_similarity h /\
      -1 <= hit_similarity h <= 1 /\
      hit_relevance_score h = Some (Math_round (hit_similarity h * 100)).
Proof.
  intros JSON_parse pipeline model selectEmbeddings selectProblems query
         limit threshold st st' hits H.
  destruct (semanticSearch_success _ _ _ _ _ _ _ _ _ _ _ H)
    as [q [rows [Hembed [_ [[_ ->] | [problems [raw [_ [Hraw ->]]]]]]]]].
  { split; [constructor | easy]. }
  split; [apply sort_sorted|].
  intros h Hh. apply (Permutation_in _ (sort_perm hit_similarity raw)) in Hh.
  assert (Hq : length q = D)
    by now apply (generateEmbedding_length _ _ _ _ _ _ _ Hembed).
  apply attachScores_hits in Hraw.
  destruct (Forall2_In_r _ _ _ _ Hraw Hh)
    as [p [_ [_ [m [Hfind [Hsim Hrel]]]]]].
  apply find_first_some in Hfind.
  destruct Hfind as [_ [before [after [Htop _]]]].
  destruct (topMatches_In (similarities JSON_parse q rows) threshold limit m)
    as [Hin Hge].
  { rewrite Htop. apply in_or_app. right. now left. }
  destruct (similarities_In _ _ _ _ Hq Hin) as [emb [v [_ [_ [_ Hcos]]]]].
  apply cosineSimilarity_in_range in Hcos.
  rewrite Hsim, Hrel. repeat split; lra.
Qed.

(** In the arithmetic of the runtime a similarity meets the bounds of the
    exact reading up to rounding only: the vector (1, 1, 1) against
    itself scores above 1, and the vector (1, 1) against itself below
    1. *)
Example cosineSimilarity64_rounding :
  (exists s,
      cosineSimilarity64 (Some [1; 1; 1]%float) (Some [1; 1; 1]%float)
      = Ok s /\ PrimFloat.ltb 1 s = true) /\
  (exists s,
      cosineSimilarity64 (Some [1; 1]%float) (Some [1; 1]%float) = Ok s /\
      PrimFloat.ltb s 1 = true).
Proof.
  split; eexists; split; vm_compute; reflexivity.
Qed.

(** X9.  The hits [semanticSearch] returns are in descending order of
    similarity; each has a similarity of at least the threshold, and a
    relevance score that is its similarity in percent, rounded.  In the
    exact arithmetic in which this model reads the scores, the similarity
    lies between -1 and 1 as well; the binary64 value of the runtime can
    pass these bounds by a rounding error
    ([cosineSimilarity64_rounding]). *)
Theorem semanticSearch_hits :
  forall (JSON_parse : string -> option json)
         (pipeline : outcome unit) (model : string -> outcome (list R))
         (selectEmbeddings : option (list embedding_row))
         (selectProblems : list Z -> option (list problem))
         (query : string) (limit : Z) (threshold : R) (st st' : state)
         (hits : list hit),
    semanticSearch JSON_parse pipeline model selectEmbeddings selectProblems
      query limit threshold st = (st', Ok hits) ->
    StronglySorted (descending hit_similarity) hits /\
    forall h, In h hits ->
      threshold <= hit_similarity h /\
      -1 <= hit_similarity h <= 1 /\
      hit_relevance_score h = Some (Math_round (hit_similarity h * 100)).
Proof. exact semanticSearch_hit_facts. Qed.

Lemma semanticSearch_hits_witness :
  let p := mkProblem 10 "vpn" "no route" in
  let h := mkHit p 1 (Some (Math_round (1 * 100))) in
  semanticSearch (fun _ : string => None) (Returned tt)
    (fun _ : string => Returned [1])
    (Some [mkRow 1 10 (NativeArray [1]); mkRow 2 20 (Text "[0.1,")])
    (fun _ => Some [p]) "vpn" 5 (1 / 10) (mkState false [])
  = (after_embedding (mkState false []) "vpn", Ok [h]) /\
  StronglySorted (descending hit_similarity) [h].
Proof.
  intros p h.
  destruct (semanticSearch_example (fun _ => Some [p]) [p] eq_refl)
    as [Hrun _].
  split; [exact Hrun|].
  exact (proj1 (semanticSearch_hits _ _ _ _ _ _ _ _ _ _ _ Hrun)).
Defined.



(** X11.  When the store answers with a problem that was not asked for,
    one whose id is the id of no match, the search fails with a
    [TypeError] although matches were found. *)
Theorem semanticSearch_foreign_problem :
  forall (JSON_parse : string -> option json)
         (pipeline : outcome unit) (model : string -> outcome (list R))
         (embeddings : list embedding_row)
         (selectProblems : list Z -> option (list problem))
         (query : string) (limit : Z) (threshold : R) (st st1 : state)
         (queryEmbedding : list R) (problems : list problem),
    generateEmbedding pipeline model query 384 st
    = (st1, Ok queryEmbedding) ->
    let top :=
      topMatches (similarities JSON_parse queryEmbedding embeddings)
        threshold limit in
    top <> [] ->
    selectProblems (map problem_id top) = Some problems ->
    (exists p, In p problems /\ ~ In (id p) (map problem_id top)) ->
    semanticSearch JSON_parse pipeline model (Some embeddings) selectProblems
      query limit threshold st = (st1, Throw TypeError).
Proof.
  intros JSON_parse pipeline model embeddings selectProblems query limit
         threshold st st1 q problems Hembed top Htop Hproblems Hforeign.
  unfold semanticSearch.
  destruct (falsy_string query) eqn:Hfalsy.
  { unfold generateEmbedding in Hembed. rewrite Hfalsy in Hembed.
    discriminate. }
  rewrite Hembed. destruct embeddings as [| emb embeddings].
  { exfalso. apply Htop. apply topMatches_nil. }
  fold top. destruct top as [| m top'] eqn:Hm; [contradiction|].
  rewrite Hproblems, (attachScores_foreign _ _ Hforeign). reflexivity.
Qed.

Lemma semanticSearch_foreign_problem_witness :
  let stranger := mkProblem 99 "dns" "no answer" in
  semanticSearch (fun _ : string => None) (Returned tt)
    (fun _ : string => Returned [1])
    (Some [mkRow 1 10 (NativeArray [1]); mkRow 2 20 (Text "[0.1,")])
    (fun _ => Some [stranger]) "vpn" 5 (1 / 10) (mkState false [])
  = (after_embedding (mkState false []) "vpn", Throw TypeError).
Proof.
  intros stranger.
  destruct (semanticSearch_example (fun _ => Some [stranger]) [stranger]
              eq_refl) as [_ [Hembed Htop]].
  apply (semanticSearch_foreign_problem _ _ _ _ _ _ _ _ _ _ _ [stranger]
           Hembed).
  - rewrite Htop. discriminate.
  - reflexivity.
  - exists stranger. split; [now left|]. rewrite Htop. simpl.
    intros [H | []]. discriminate.
Defined.

(** X12.  When no stored vector is well formed, the search returns no hit
    instead of failing, and does so even when the problems cannot be
    fetched. *)
Theorem semanticSearch_all_malformed :
  forall (JSON_parse : string -> option json)
         (pipeline : outcome unit) (model : string -> outcome (list R))
         (embeddings : list embedding_row)
         (selectProblems : list Z -> option (list problem))
         (query : string) (limit : Z) (threshold : R) (st st1 : state)
         (queryEmbedding : list R),
    generateEmbedding pipeline model query 384 st
    = (st1, Ok queryEmbedding) ->
    (forall emb, In emb embeddings -> well_formed JSON_parse emb = false) ->
    semanticSearch JSON_parse pipeline model (Some embeddings) selectProblems
      query limit threshold st = (st1, Ok []).
Proof.
  intros JSON_parse pipeline model embeddings selectProblems query limit
         threshold st st1 q Hembed Hmalformed.
  assert (Hq : length q = D)
    by now apply (generateEmbedding_length _ _ _ _ _ _ _ Hembed).
  assert (Hsims : similarities JSON_parse q embeddings = []).
  { destruct (similarities JSON_parse q embeddings) as [| m sims] eqn:Hs;
      [reflexivity|].
    destruct (similarities_In JSON_parse q embeddings m Hq)
      as [emb [v [Hin [_ [Harr _]]]]]; [rewrite Hs; now left|].
    specialize (Hmalformed emb Hin). unfold well_formed in Hmalformed.
    now rewrite Harr in Hmalformed. }
  unfold semanticSearch.
  destruct (falsy_string query) eqn:Hfalsy.
  { unfold generateEmbedding in Hembed. rewrite Hfalsy in Hembed.
    discriminate. }
  rewrite Hembed, Hsims, topMatches_nil.
  now destruct embeddings.
Qed.

Lemma semanticSearch_all_malformed_witness :
  semanticSearch (fun _ : string => None) (Returned tt)
    (fun _ : string => Returned [1])
    (Some [mkRow 2 20 (Text "[0.1,"); mkRow 3 30 NotAVector])
    (fun _ => None) "vpn" 5 (1 / 10) (mkState false [])
  = (after_embedding (mkState false []) "vpn", Ok []).
Proof.
  apply (semanticSearch_all_malformed _ _ _ _ _ _ _ _ _ _ (repaired [1])).
  - apply generateEmbedding_success;
      [discriminate | now right | reflexivity | lia].
  - intros emb [<- | [<- | []]]; reflexivity.
Defined.

(** X13.  Hits of [semanticSearch] in the fused list.  With a threshold
    that is not negative, the fused score of every hit of the search is at
    least 100, above the 30 of every YouTube result, and differs from its
    similarity in percent plus 100 by at most one half. *)
Theorem semanticSearch_hits_fused_score :
  forall (JSON_parse : string -> option json)
         (pipeline : outcome unit) (model : string -> outcome (list R))
         (selectEmbeddings : option (list embedding_row))
         (selectProblems : list Z -> option (list problem))
         (query : string) (limit : Z) (threshold : R) (st st' : state)
         (hits : list hit),
    semanticSearch JSON_parse pipeline model selectEmbeddings selectProblems
      query limit threshold st = (st', Ok hits) ->
    0 <= threshold ->
    forall (stackoverflow : list so_result) (youtube : list yt_result)
           (r : ranked) (item : hit),
      In r (combineAndRankResults hits stackoverflow youtube) ->
      entry r = Internal item ->
      100 <= rank_score r /\
      Rabs (rank_score r - (hit_similarity item * 100 + 100)) <= / 2.
Proof.
  intros JSON_parse pipeline model selectEmbeddings selectProblems query
         limit threshold st st' hits H Hthreshold stackoverflow youtube r
         item Hr Hentry.
  destruct (combineAndRankResults_ordered hits stackoverflow youtube)
    as [rest [Hperm _]].
  assert (Hall : In r (all_candidates hits stackoverflow youtube)).
  { apply (Permutation_in _ Hperm), in_or_app. now left. }
  apply all_candidates_scores in Hall. rewrite Hentry in Hall.
  destruct Hall as [Hin [_ ->]].
  destruct (proj2 (semanticSearch_hit_facts _ _ _ _ _ _ _ _ _ _ _ H) _ Hin)
    as [Hge [_ Hrel]].
  unfold relevance_or_similarity. rewrite Hrel. unfold Reqb.
  pose proof (Math_round_near (hit_similarity item * 100)) as Hnear.
  pose proof (Math_round_nonneg (hit_similarity item * 100)) as Hnn.
  destruct (Req_dec_T (Math_round (hit_similarity item * 100)) 0)
    as [Hz | Hnz].
  - split; [lra|].
    replace (hit_similarity item * 100 + 100
             - (hit_similarity item * 100 + 100)) with 0 by lra.
    rewrite Rabs_R0. lra.
  - split; [assert (0 <= hit_similarity item * 100) by lra; lra|].
    replace (Math_round (hit_similarity item * 100) + 100
             - (hit_similarity item * 100 + 100))
      with (Math_round (hit_similarity item * 100)
            - hit_similarity item * 100) by lra.
    exact Hnear.
Qed.

Lemma semanticSearch_hits_fused_score_witness :
  let p := mkProblem 10 "vpn" "no route" in
  let h := mkHit p 1 (Some (Math_round (1 * 100))) in
  semanticSearch (fun _ : string => None) (Returned tt)
    (fun _ : string => Returned [1])
    (Some [mkRow 1 10 (NativeArray [1]); mkRow 2 20 (Text "[0.1,")])
    (fun _ => Some [p]) "vpn" 5 (1 / 10) (mkState false [])
  = (after_embedding (mkState false []) "vpn", Ok [h]) /\
  0 <= 1 / 10 /\
  forall r item,
    In r (combineAndRankResults [h] [] []) -> entry r = Internal item ->
    100 <= rank_score r /\
    Rabs (rank_score r - (hit_similarity item * 100 + 100)) <= / 2.
Proof.
  intros p h.
  destruct (semanticSearch_example (fun _ => Some [p]) [p] eq_refl)
    as [Hrun _].
  split; [exact Hrun|]. split; [lra|].
  apply (semanticSearch_hits_fused_score _ _ _ _ _ _ _ _ _ _ _ Hrun). lra.
Defined.

(** ** The adapters of the external sources *)

Lemma mapResult_ok {A B} (f : A -> result B) (l : list A) (bs : list B) :
  mapResult f l = Ok bs -> Forall2 (fun a b => f a = Ok b) l bs.
Proof.
  revert bs. induction l as [| a l IH]; intros bs; simpl.
  - intros [= <-]. constructor.
  - destruct (f a) as [b | e] eqn:Hf; [|discriminate].
    destruct (mapResult f l) as [bs' | e]; [|discriminate].
    intros [= <-]. constructor; [exact Hf | now apply IH].
Qed.

Lemma mapResult_throw {A B} (f : A -> result B) (l : list A) (a : A)
  (e : error) :
  In a l -> f a = Throw e -> exists e', mapResult f l = Throw e'.
Proof.
  induction l as [| x l IH]; [easy|]. intros [<- | Hin] Hf; simpl.
  - rewrite Hf. now exists e.
  - destruct (f x); [|eexists; reflexivity].
    destruct (IH Hin Hf) as [e' ->]. now exists e'.
Qed.

Lemma mapResult_all_ok {A B} (f : A -> result B) (l : list A) :
  (forall a, In a l -> exists b, f a = Ok b) ->
  exists bs, mapResult f l = Ok bs.
Proof.
  induction l as [| x l IH]; intros H; simpl; [now exists []|].
  destruct (H x (or_introl eq_refl)) as [b ->].
  destruct IH as [bs ->]; [intros a Ha; apply H; now right|].
  now exists (b :: bs).
Qed.

Lemma string_app_assoc (a b c : string) :
  ((a ++ b) ++ c)%string = (a ++ (b ++ c))%string.
Proof. induction a as [| x a IH]; simpl; [reflexivity | now rewrite IH]. Qed.

Lemma string_app_length (a b : string) :
  String.length (a ++ b) = (String.length a + String.length b)%nat.
Proof. induction a as [| x a IH]; simpl; [reflexivity | now rewrite IH]. Qed.

Lemma holds_cons c d s : holds c (String d s) <-> d = c \/ holds c s.
Proof.
  split.
  - intros [[| x a] [b H]]; simpl in H; injection H as -> ->.
    + now left.
    + right. now exists a, b.
  - intros [-> | [a [b ->]]].
    + now exists EmptyString, s.
    + now exists (String d a), b.
Qed.

Lemma holds_empty c : ~ holds c EmptyString.
Proof. intros [[| x a] [b H]]; discriminate. Qed.

Lemma holds_app c s t : holds c (s ++ t) <-> holds c s \/ holds c t.
Proof.
  induction s as [| d s IH]; simpl.
  - split; [now right | intros [H | H]; [now apply holds_empty in H | easy]].
  - rewrite !holds_cons, IH. tauto.
Qed.

Lemma has_tag_cons d s :
  has_tag (String d s) <-> (d = "<"%char /\ holds ">" s) \/ has_tag s.
Proof.
  split.
  - intros [[| x a] [b [c H]]]; simpl in H; injection H as -> ->.
    + left. split; [reflexivity|]. now exists b, c.
    + right. now exists a, b, c.
  - intros [[-> [b [c ->]]] | [a [b [c ->]]]].
    + now exists EmptyString, b, c.
    + now exists (String d a), b, c.
Qed.

Lemma has_tag_holds s : has_tag s -> holds ">" s.
Proof.
  intros [a [b [c ->]]]. exists (a ++ String "<" b)%string, c.
  now rewrite string_app_assoc.
Qed.

Lemma stripTags_no_tag (text : string) :
  ~ has_tag (stripTags None text) /\
  forall kept, ~ holds ">" kept -> ~ has_tag (stripTags (Some kept) text).
Proof.
  induction text as [| c text [IHnone IHsome]]; simpl.
  - split.
    + intros [[| x a] [b [c H]]]; discriminate.
    + intros kept Hk H. now apply Hk, has_tag_holds.
  - split.
    + destruct (Ascii.eqb_spec c "<") as [-> | Hc].
      * apply IHsome. rewrite holds_cons. intros [H | H]; [discriminate|].
        now apply holds_empty in H.
      * rewrite has_tag_cons. intros [[H _] | H]; [contradiction|].
        now apply IHnone.
    + intros kept Hk. destruct (Ascii.eqb_spec c ">") as [-> | Hc].
      * exact IHnone.
      * apply IHsome. rewrite holds_app, holds_cons.
        intros [H | [H | H]]; [contradiction | congruence|].
        now apply holds_empty in H.
Qed.

Lemma stripTags_length (text : string) :
  (String.length (stripTags None text) <= String.length text)%nat /\
  forall kept,
    (String.length (stripTags (Some kept) text)
     <= String.length kept + String.length text)%nat.
Proof.
  induction text as [| c text [IHnone IHsome]]; simpl.
  - split; [lia | intros; lia].
  - split.
    + destruct (Ascii.eqb c "<").
      * specialize (IHsome (String c EmptyString)). simpl in IHsome. lia.
      * simpl. lia.
    + intros kept. destruct (Ascii.eqb c ">"); [lia|].
      specialize (IHsome (kept ++ String c EmptyString)%string).
      rewrite string_app_length in IHsome. simpl in IHsome. lia.
Qed.

Lemma stripTags_plain (text : string) :
  ~ holds "<" text -> stripTags None text = text.
Proof.
  induction text as [| c text IH]; simpl; [reflexivity|].
  rewrite holds_cons. intros H.
  destruct (Ascii.eqb_spec c "<") as [-> | Hc]; [tauto|].
  f_equal. apply IH. tauto.
Qed.

Lemma substring_length (n : nat) (s : string) :
  (String.length (substring 0 n s) <= n)%nat.
Proof.
  revert s. induction n as [| n IH]; intros [| c s]; simpl; try lia.
  specialize (IH s). lia.
Qed.

(** What [formatStackOverflow] makes of an item it can format. *)
Lemma formatStackOverflow_ok now toISOString item r :
  formatStackOverflow now toISOString item = Ok r ->
  so_source r = stackoverflow /\ so_title r = item_title item /\
  so_link r = item_link item /\ so_score r = item_score item /\
  so_answer_count r = item_answer_count item /\
  so_view_count r = item_view_count item /\
  so_is_answered r = item_is_answered item /\
  so_tags r = item_tags item /\
  so_creation_date r
  = toISOString (truncate (item_creation_date item * 1000)) /\
  so_relevance_score r = calculateStackOverflowRelevance now item /\
  match item_body item with
  | Body (String c text) =>
      exists kept,
        so_excerpt r = (kept ++ "...")%string /\
        (String.length kept <= 200)%nat /\
        ~ has_tag kept /\
        (~ holds "<" (substring 0 200 (String c text)) ->
         kept = substring 0 200 (String c text))
  | _ => so_excerpt r = EmptyString
  end.
Proof.
  unfold formatStackOverflow, Date_toISOString.
  destruct (Rlt_dec _ _); [discriminate|].
  destruct (item_body item) as [| [| c text] |]; cbn [excerpt];
    try discriminate; intros [= <-]; cbn; repeat split.
  exists (stripTags None (substring 0 200 (String c text))).
  repeat split.
  - pose proof (proj1 (stripTags_length (substring 0 200 (String c text)))).
    pose proof (substring_length 200 (String c text)). lia.
  - apply stripTags_no_tag.
  - apply stripTags_plain.
Qed.

Lemma formatStackOverflow_throws now toISOString item :
  broken item <-> exists e, formatStackOverflow now toISOString item = Throw e.
Proof.
  unfold broken, formatStackOverflow, Date_toISOString.
  destruct (Rlt_dec _ _) as [Hlt | Hle].
  - split; [intros _; now exists RangeError | now left].
  - destruct (item_body item) as [| [| c text] |]; cbn [excerpt];
      (split; [intros [H | H]; [contradiction | try discriminate]
              | intros [e H]; try discriminate]).
    + now exists TypeError.
    + now right.
Qed.

(** X14.  [searchStackOverflow] is all or nothing over the items of the
    answer.  One item that cannot be formatted (a [creation_date] out of
    the range of dates, a body that is not a text) empties the whole
    result.  Otherwise there is one result for each item, in descending
    order of relevance: it has the title, link, score, counts, answered
    flag and tags of its item, the date of the item as the runtime writes
    it, the relevance [calculateStackOverflowRelevance] gives the item,
    and an excerpt that is empty for an item without a body and else the
    first 200 characters of the body with every tag removed (unchanged
    when they hold no [<]), followed by three dots.  An empty query, a
    failed request and an answer without items give the empty array. *)
Theorem searchStackOverflow_results :
  forall (now : R) (toISOString : Z -> string)
         (get : string -> Z -> outcome (option (list so_item)))
         (query : string) (limit : Z),
    let results := searchStackOverflow now toISOString get query limit in
    StronglySorted (descending so_relevance_score) results /\
    match query, get query limit with
    | String _ _, Returned (Some items) =>
        ((exists item,
             In item items /\
             (8640000000000000 < Rabs (item_creation_date item * 1000) \/
              item_body item = NotText)) ->
         results = []) /\
        ((forall item,
             In item items ->
             Rabs (item_creation_date item * 1000) <= 8640000000000000 /\
             item_body item <> NotText) ->
         exists ordered,
           Permutation ordered items /\
           Forall2
             (fun r item =>
                so_source r = stackoverflow /\
                so_title r = item_title item /\
                so_link r = item_link item /\
                so_score r = item_score item /\
                so_answer_count r = item_answer_count item /\
                so_view_count r = item_view_count item /\
                so_is_answered r = item_is_answered item /\
                so_tags r = item_tags item /\
                so_creation_date r
                = toISOString (truncate (item_creation_date item * 1000)) /\
                so_relevance_score r
                = calculateStackOverflowRelevance now item /\
                match item_body item with
                | Body (String c text) =>
                    exists kept,
                      so_excerpt r = (kept ++ "...")%string /\
                      (String.length kept <= 200)%nat /\
                      ~ has_tag kept /\
                      (~ holds "<" (substring 0 200 (String c text)) ->
                       kept = substring 0 200 (String c text))
                | _ => so_excerpt r = EmptyString
                end)
             results ordered)
    | _, _ => results = []
    end.
Proof.
  intros now toISOString get query limit results.
  unfold results, searchStackOverflow.
  destruct query as [| c query]; cbn [falsy_string].
  { split; [constructor | reflexivity]. }
  destruct (get (String c query) limit) as [[items |] | code]; cbn [await];
    try (split; [constructor | reflexivity]).
  change (fun a b : so_result => so_relevance_score b - so_relevance_score a)
    with (by_key_desc so_relevance_score).
  destruct (mapResult (formatStackOverflow now toISOString) items)
    as [formatted | e] eqn:Hmap.
  - split; [apply sort_sorted|]. split.
    + intros [item [Hin Hbroken]].
      apply (proj1 (formatStackOverflow_throws now toISOString item))
        in Hbroken.
      destruct Hbroken as [e He].
      destruct (mapResult_throw _ _ _ _ Hin He) as [e' He'].
      congruence.
    + intros _. apply mapResult_ok in Hmap.
      assert (Hrel : Forall2 (fun r item =>
                        formatStackOverflow now toISOString item = Ok r)
                       formatted items).
      { clear - Hmap. induction Hmap; constructor; auto. }
      destruct (Permutation_Forall2
                  (Permutation_sym (sort_perm so_relevance_score formatted))
                  Hrel) as [ordered [Hperm Hall]].
      exists ordered. split; [now apply Permutation_sym|].
      clear - Hall. induction Hall as [| r item rs items' Hf _ IH];
        constructor; [now apply formatStackOverflow_ok | exact IH].
  - split; [constructor|]. split; [reflexivity|].
    intros Hfine. exfalso.
    destruct (mapResult_all_ok (formatStackOverflow now toISOString) items)
      as [bs Hbs]; [|congruence].
    intros item Hin.
    destruct (formatStackOverflow now toISOString item) as [r | e'] eqn:Hf;
      [now exists r|].
    assert (Hb : broken item)
      by (apply (formatStackOverflow_throws now toISOString); now exists e').
    destruct (Hfine item Hin) as [Hdate Hbody].
    destruct Hb as [Hb | Hb]; [lra | contradiction].
Qed.

Lemma formatYouTube_results (items : list yt_item) (rs : list yt_result) :
  Forall2 (fun a b => formatYouTube a = Ok b) items rs ->
  map yt_video_id rs = map id_videoId items /\
  map yt_title rs = map snippet_title items /\
  forall r, In r rs ->
    yt_source r = youtube /\
    yt_link r = ("https://www.youtube.com/watch?v=" ++ yt_video_id r)%string.
Proof.
  induction 1 as [| item r items rs Hf _ [Hid [Htitle Hr]]].
  - repeat split; easy.
  - unfold formatYouTube in Hf.
    destruct (snippet_thumbnail item); [|discriminate].
    injection Hf as <-. cbn [map yt_video_id yt_title].
    rewrite Hid, Htitle. split; [reflexivity|]. split; [reflexivity|].
    intros r [<- | Hin]; [now split | now apply Hr].
Qed.

(** X15.  With an API key and a non-empty query, [searchYouTube] is all or
    nothing over the items of the answer: one item without a medium
    thumbnail empties the whole result; otherwise there is one result for
    each item, in the order of the answer, and its link is the watch
    address of the video. *)
Theorem searchYouTube_results :
  forall (key : string)
         (get : string -> Z -> outcome (option (list yt_item)))
         (query : string) (limit : Z) (items : list yt_item),
    key <> EmptyString -> query <> EmptyString ->
    get query limit = Returned (Some items) ->
    let results := searchYouTube (Some key) get query limit in
    ((exists item, In item items /\ snippet_thumbnail item = None) ->
     results = []) /\
    ((forall item, In item items -> snippet_thumbnail item <> None) ->
     map yt_video_id results = map id_videoId items /\
     map yt_title results = map snippet_title items /\
     forall r, In r results ->
       yt_source r = youtube /\
       yt_link r
       = ("https://www.youtube.com/watch?v=" ++ yt_video_id r)%string).
Proof.
  intros key get query limit items Hkey Hquery Hget results.
  unfold results, searchYouTube.
  rewrite (falsy_string_false _ Hquery), Hget.
  destruct key as [| c key]; [contradiction|]. cbn [await]. split.
  - intros [item [Hin Hthumb]].
    destruct (mapResult_throw formatYouTube items item TypeError Hin)
      as [e ->]; [|reflexivity].
    unfold formatYouTube. now rewrite Hthumb.
  - intros Hall.
    destruct (mapResult_all_ok formatYouTube items) as [bs Hbs].
    { intros item Hin. specialize (Hall item Hin). unfold formatYouTube.
      destruct (snippet_thumbnail item); [eexists; reflexivity | easy]. }
    rewrite Hbs. apply mapResult_ok in Hbs.
    now apply formatYouTube_results.
Qed.

Lemma searchYouTube_results_witness :
  let good := mkYtItem "v1" "title" "text" "channel" (Some "url"%string) in
  let bad := mkYtItem "v2" "title" "text" "channel" None in
  let get := fun (_ : string) (_ : Z) => Returned (Some [good; bad]) in
  "key"%string <> EmptyString /\ "vpn"%string <> EmptyString /\
  searchYouTube (Some "key"%string) get "vpn" 2 = [].
Proof.
  intros good bad get.
  assert (Hkey : "key"%string <> EmptyString) by discriminate.
  assert (Hquery : "vpn"%string <> EmptyString) by discriminate.
  split; [exact Hkey|]. split; [exact Hquery|].
  apply (searchYouTube_results "key" get "vpn" 2 [good; bad] Hkey Hquery
           eq_refl).
  exists bad. split; [right; now left | reflexivity].
Defined.

Lemma Math_round_le (x y : R) : x <= y -> Math_round x <= Math_round y.
Proof.
  intros H. unfold Math_round. apply IZR_le, Zfloor_le. lra.
Qed.

Lemma Math_log10_le (x y : R) :
  0 < x -> x <= y -> Math_log10 x <= Math_log10 y.
Proof.
  intros Hx Hxy. unfold Math_log10.
  assert (H10 : 0 < ln 10).
  { rewrite <- ln_1. apply ln_increasing; lra. }
  assert (Hln : ln x <= ln y).
  { destruct Hxy as [Hlt | ->]; [|lra].
    left. now apply ln_increasing. }
  apply Rmult_le_compat_r; [|exact Hln].
  left. now apply Rinv_0_lt_compat.
Qed.

(** X16.  The relevance of a Stack Overflow item does not go down when its
    vote score, its answer count or its (non-negative) view count goes
    up, everything else being equal. *)
Theorem calculateStackOverflowRelevance_monotone :
  forall (now : R) (title link : string) (score score' answers answers' : R)
         (views views' : R) (answered : bool) (accepted : option Z)
         (created : R) (tags : list string) (text : body),
    score <= score' -> answers <= answers' ->
    0 <= views -> views <= views' ->
    calculateStackOverflowRelevance now
      (mkSoItem title link score answers views answered accepted created
         tags text)
    <= calculateStackOverflowRelevance now
         (mkSoItem title link score' answers' views' answered accepted
            created tags text).
Proof.
  intros now title link score score' answers answers' views views' answered
         accepted created tags text Hs Ha Hv Hv'.
  unfold calculateStackOverflowRelevance.
  cbn [item_score item_answer_count item_view_count item_is_answered
       item_accepted_answer_id item_creation_date].
  assert (Hlog : Math_log10 (views + 1) <= Math_log10 (views' + 1))
    by (apply Math_log10_le; lra).
  apply Math_round_le.
  destruct answered, (truthy_id accepted),
    (Rltb ((now - created * 1000) / (1000 * 60 * 60 * 24)) 365).
  all: lra.
Qed.

Lemma calculateStackOverflowRelevance_monotone_witness :
  1 <= 2 /\ 0 <= 3 /\ 0 <= 10 /\ 10 <= 1000 /\
  calculateStackOverflowRelevance 0
    (mkSoItem "t" "l" 1 0 10 true None 0 [] NoBody)
  <= calculateStackOverflowRelevance 0
       (mkSoItem "t" "l" 2 3 1000 true None 0 [] NoBody).
Proof.
  repeat (split; [lra|]).
  apply calculateStackOverflowRelevance_monotone; lra.
Defined.

(** X17.  In the object [searchAllSources] returns, [total_results] is the
    sum of the three counts, [top_results] has ten entries or all of them,
    and when there are at most ten results in all, [top_results] holds
    every result of every source. *)
Theorem searchAllSources_totals :
  forall (now : R) (now_iso : string) (toISOString : Z -> string)
         (key : option string)
         (getStackOverflow : string -> Z -> outcome (option (list so_item)))
         (getYouTube : string -> Z -> outcome (option (list yt_item)))
         (query : string)
         (supabaseSearchFn : string -> Z -> result (list hit))
         (opts : options) (c : combined),
    searchAllSources now now_iso toISOString key getStackOverflow
      getYouTube query supabaseSearchFn opts = Ok c ->
    let found := combined_sources c in
    total_results c
    = (count (sources_internal found) + count (sources_stackoverflow found)
       + count (sources_youtube found))%nat /\
    length (top_results c) = Nat.min 10 (total_results c) /\
    ((total_results c <= 10)%nat ->
     Permutation (map entry (top_results c))
       (map Internal (map fst (results (sources_internal found)))
        ++ map StackOverflow (results (sources_stackoverflow found))
        ++ map YouTube (results (sources_youtube found)))).
Proof.
  intros now now_iso toISOString key getSO getYT query fn opts c.
  unfold searchAllSources. destruct (falsy_string query); [discriminate|].
  intros [= <-].
  set (internal := valueOrEmpty (settle (fn query (internalLimit opts)))).
  cbn [combined_sources sources_internal sources_stackoverflow
       sources_youtube count results top_results total_results valueOrEmpty].
  set (answers := searchStackOverflow now toISOString getSO query
                    (stackOverflowLimit opts)).
  set (videos := searchYouTube key getYT query (youtubeLimit opts)).
  destruct (combineAndRankResults_ordered internal answers videos)
    as [rest [Hperm [_ Hlen]]].
  rewrite all_candidates_length in Hlen.
  split; [reflexivity|]. split; [exact Hlen|].
  intros Hfew.
  assert (Hrest : rest = []).
  { apply Permutation_length in Hperm.
    rewrite length_app, all_candidates_length, Hlen in Hperm.
    destruct rest; [reflexivity|]. exfalso. cbn [length] in Hperm.
    revert Hperm Hfew. generalize (length internal), (length answers),
      (length videos), (length rest). intros a b c d. lia. }
  rewrite Hrest, app_nil_r in Hperm.
  assert (Hfst : map fst (map (fun item : hit => (item, internal_db))
                             internal) = internal).
  { rewrite map_map. simpl. apply map_id. }
  rewrite Hfst, <- all_candidates_entries. now apply Permutation_map.
Qed.

Lemma searchAllSources_totals_witness :
  let h := mkHit (mkProblem 1 "vpn" "no route") (9 / 10) (Some 90) in
  let getStackOverflow := fun (_ : string) (_ : Z) =>
        @Failed (option (list so_item)) 408 in
  let getYouTube := fun (_ : string) (_ : Z) =>
        @Failed (option (list yt_item)) 403 in
  exists c,
    searchAllSources 0 "2024" (fun _ => "2024"%string) None
      getStackOverflow getYouTube "vpn" (fun _ _ => Ok [h]) default_options
    = Ok c /\
    total_results c = 1%nat /\
    length (top_results c) = 1%nat.
Proof.
  intros h getStackOverflow getYouTube. eexists.
  split; [reflexivity|].
  destruct (searchAllSources_totals 0 "2024" (fun _ => "2024"%string) None
              getStackOverflow getYouTube "vpn" (fun _ _ => Ok [h])
              default_options _ eq_refl) as [Htotal [Hlen _]].
  split; [exact Htotal | exact Hlen].
Defined.

(** ** The links of a combined search *)

Import Links.

Lemma existsb_eqb_In (x : string) (seen : list string) :
  existsb (String.eqb x) seen = true <-> In x seen.
Proof.
  rewrite existsb_exists. split.
  - intros [y [Hy Heq]]. apply String.eqb_eq in Heq. now subst.
  - intros H. exists x. split; [exact H | apply String.eqb_refl].
Qed.

Lemma unique_In (seen links : list string) (x : string) :
  In x (unique seen links) <-> In x links /\ ~ In x seen.
Proof.
  revert seen. induction links as [| l links IH]; intros seen; simpl.
  - tauto.
  - destruct (existsb (String.eqb l) seen) eqn:Hl.
    + apply existsb_eqb_In in Hl. rewrite IH. split.
      * tauto.
      * intros [[<- | H] Hn]; [contradiction | tauto].
    + assert (Hn : ~ In l seen).
      { intros H. apply existsb_eqb_In in H. congruence. }
      simpl. rewrite IH. simpl. split.
      * intros [<- | [H1 H2]]; [tauto|]. split; [tauto|]. tauto.
      * intros [[<- | H] Hx]; [now left|].
        destruct (string_dec l x) as [-> | Hne]; [now left|].
        right. split; [exact H|]. intros [Heq | Hs]; contradiction.
Qed.

Lemma unique_NoDup (seen links : list string) : NoDup (unique seen links).
Proof.
  revert seen. induction links as [| l links IH]; intros seen; simpl.
  - constructor.
  - destruct (existsb (String.eqb l) seen); [apply IH|].
    constructor; [|apply IH].
    rewrite unique_In. simpl. tauto.
Qed.

Lemma unique_of_NoDup (seen links : list string) :
  NoDup links -> (forall x, In x links -> ~ In x seen) ->
  unique seen links = links.
Proof.
  intros Hnd. revert seen. induction Hnd as [| l links Hl _ IH];
    intros seen Hseen; simpl; [reflexivity|].
  destruct (existsb (String.eqb l) seen) eqn:He.
  - apply existsb_eqb_In in He. exfalso. apply (Hseen l); [now left|].
    exact He.
  - f_equal. apply IH. intros x Hx [<- | Hs]; [contradiction|].
    apply (Hseen x); [now right | exact Hs].
Qed.

(** The links the first loop of [extractAllLinks] pushes, by the fields
    it reads: the sources, neither [null] nor empty, of the solutions of
    the internal results, in their order. *)
Lemma internalLinks_sources (solutions : hit -> option (list solution))
  (items : list (hit * source)) :
  internalLinks solutions items
  = flat_map
      (fun item =>
         match solutions (fst item) with
         | Some sols =>
             flat_map
               (fun sol =>
                  match solution_source sol with
                  | Some (String c link) => [String c link]
                  | _ => []
                  end)
               sols
         | None => []
         end)
      items.
Proof.
  unfold internalLinks. apply flat_map_ext. intros item.
  destruct (solutions (fst item)) as [[| sol sols] |]; try reflexivity.
  apply flat_map_ext. intros x.
  now destruct (solution_source x) as [[|] |].
Qed.

(** X18.  [extractAllLinks] returns every link once.  The list has no
    duplicate.  A link is in it exactly when it is the source, neither
    [null] nor empty, of a solution of an internal result, the link of a
    Stack Overflow result or the link of a video.  When the links pushed
    (the sources of the solutions, result after result, then the Stack
    Overflow links, then the YouTube links) are all different, the list
    is these links in that order. *)
Theorem extractAllLinks_unique :
  forall (solutions : hit -> option (list solution))
         (searchResults : combined),
    let found := combined_sources searchResults in
    let links := extractAllLinks solutions searchResults in
    let pushed :=
      flat_map
        (fun item =>
           match solutions (fst item) with
           | Some sols =>
               flat_map
                 (fun sol =>
                    match solution_source sol with
                    | Some (String c link) => [String c link]
                    | _ => []
                    end)
                 sols
           | None => []
           end)
        (results (sources_internal found))
      ++ map so_link (results (sources_stackoverflow found))
      ++ map yt_link (results (sources_youtube found)) in
    NoDup links /\
    (forall link,
        In link links <->
        (exists item sols sol,
            In item (results (sources_internal found)) /\
            solutions (fst item) = Some sols /\ In sol sols /\
            solution_source sol = Some link /\ link <> EmptyString) \/
        (exists answer,
            In answer (results (sources_stackoverflow found)) /\
            so_link answer = link) \/
        (exists video,
            In video (results (sources_youtube found)) /\
            yt_link video = link)) /\
    (NoDup pushed -> links = pushed).
Proof.
  intros solutions searchResults found links pushed.
  assert (Hlinks : links = unique [] pushed).
  { unfold links, extractAllLinks, pushed. fold found.
    now rewrite internalLinks_sources. }
  split; [rewrite Hlinks; apply unique_NoDup|]. split.
  - intros link. rewrite Hlinks, unique_In. unfold pushed.
    rewrite !in_app_iff, in_flat_map.
    assert (Hint :
              (exists item,
                  In item (results (sources_internal found)) /\
                  In link
                    match solutions (fst item) with
                    | Some sols =>
                        flat_map
                          (fun sol =>
                             match solution_source sol with
                             | Some (String c l) => [String c l]
                             | _ => []
                             end)
                          sols
                    | None => []
                    end)
              <-> exists item sols sol,
                    In item (results (sources_internal found)) /\
                    solutions (fst item) = Some sols /\ In sol sols /\
                    solution_source sol = Some link /\
                    link <> EmptyString).
    { split.
      - intros [item [Hitem Hin]].
        destruct (solutions (fst item)) as [sols |] eqn:Hs; [|easy].
        apply in_flat_map in Hin. destruct Hin as [sol [Hsol Hin]].
        destruct (solution_source sol) as [[| c l] |] eqn:Hsrc; try easy.
        destruct Hin as [<- | []].
        exists item, sols, sol. repeat split; auto. discriminate.
      - intros [item [sols [sol [Hitem [Hs [Hsol [Hsrc Hne]]]]]]].
        exists item. split; [exact Hitem|]. rewrite Hs.
        apply in_flat_map. exists sol. split; [exact Hsol|].
        rewrite Hsrc. destruct link; [contradiction | now left]. }
    rewrite Hint. split.
    + intros [[H | [H | H]] _]; [now left | right; left | right; right];
        apply in_map_iff in H; destruct H as [x [Hx Hin]]; now exists x.
    + intros H. split; [|easy].
      destruct H as [H | [[x [Hin Hx]] | [x [Hin Hx]]]];
        [now left | right; left | right; right];
        apply in_map_iff; now exists x.
  - intros Hnd. rewrite Hlinks. now apply unique_of_NoDup.
Qed.

(** ** Creating and updating problems *)

Import ProblemStore.

Lemma blank_trimStart (s : string) : blank (trimStart s) = blank s.
Proof.
  induction s as [| c s IH]; [reflexivity|]. simpl.
  destruct (is_white_space c) eqn:Hc; [exact IH|].
  simpl. now rewrite Hc.
Qed.

Lemma trimEnd_empty (s : string) :
  trimEnd s = EmptyString <-> blank s = true.
Proof.
  induction s as [| c s IH]; simpl; [easy|].
  destruct (trimEnd s) eqn:Ht.
  - destruct (is_white_space c); simpl.
    + now rewrite <- IH.
    + split; discriminate.
  - split; [discriminate|]. intros H.
    apply andb_true_iff in H. destruct H as [_ H].
    apply IH in H. discriminate.
Qed.

Lemma trim_blank (s : string) : trim s = EmptyString <-> blank s = true.
Proof. unfold trim. now rewrite trimEnd_empty, blank_trimStart. Qed.

Lemma blank_append (a b : string) :
  blank (a ++ b) = blank a && blank b.
Proof.
  induction a as [| c a IH]; [reflexivity|]. simpl.
  now rewrite IH, andb_assoc.
Qed.

Lemma blank_joined (a b : string) :
  blank (a ++ " " ++ b) = blank a && blank b.
Proof. now rewrite !blank_append. Qed.

(** The run of [addProblemWithEmbedding], by what it is given and what
    its collaborators answer. *)
Lemma addProblemWithEmbedding_run pipeline model insertProblem
  insertEmbedding (title description : string) (tags : list string)
  (w : world) :
  let run :=
    addProblemWithEmbedding pipeline model insertProblem insertEmbedding
      title description tags w in
  let inserted := InsertProblem (trim title) (trim description) tags in
  (title = EmptyString \/ description = EmptyString ->
   run = (w, Raised TitleAndDescriptionRequired)) /\
  (title <> EmptyString -> description <> EmptyString ->
   match insertProblem (trim title) (trim description) tags with
   | None =>
       run = (mkWorld (encoder w) (requests w ++ [inserted]),
              Raised InsertProblemFailed)
   | Some problem =>
       match generateEmbedding pipeline model (title ++ " " ++ description)
               384 (encoder w) with
       | (st, Throw e) =>
           run = (mkWorld st (requests w ++ [inserted]), Raised (Encoder e))
       | (st, Ok embedding) =>
           length embedding = D /\
           run = (mkWorld st
                    (requests w
                     ++ [inserted; InsertEmbedding (id problem) embedding]),
                  Done (mkCreated problem
                          (insertEmbedding (id problem) embedding)))
       end
   end).
Proof.
  cbv zeta. unfold addProblemWithEmbedding. split.
  - intros [-> | ->]; [reflexivity|]. now destruct (falsy_string title).
  - intros Ht Hd.
    rewrite (falsy_string_false _ Ht), (falsy_string_false _ Hd).
    cbn [orb].
    destruct (insertProblem (trim title) (trim description) tags)
      as [problem |]; [|reflexivity].
    cbn [encoder requests].
    destruct (generateEmbedding pipeline model (title ++ " " ++ description)
                384 (encoder w)) as [st [embedding | e]] eqn:Hgen;
      [|reflexivity].
    split; [now apply (generateEmbedding_length _ _ _ _ _ _ _ Hgen)|].
    now rewrite <- app_assoc.
Qed.

(** X19.  [addProblemWithEmbedding], step by step.  An empty title or
    description is refused before anything is sent.  Otherwise the
    problem is inserted with its title and description trimmed; when the
    store refuses it, the call fails and nothing else happens.  When the
    encoder then fails, the call fails with the encoder's error: the
    problem has been inserted and stays without an embedding.  Otherwise
    one embedding of 384 components is inserted for the id of the new
    problem and the call returns the problem; [embedding_created] tells
    whether that second insert went through, and its failure does not
    fail the call. *)
Theorem addProblemWithEmbedding_requests :
  forall (pipeline : outcome unit) (model : string -> outcome (list R))
         (insertProblem : string -> string -> list string -> option problem)
         (insertEmbedding : Z -> list R -> bool)
         (title description : string) (tags : list string) (w : world),
    let run :=
      addProblemWithEmbedding pipeline model insertProblem insertEmbedding
        title description tags w in
    let inserted := InsertProblem (trim title) (trim description) tags in
    (title = EmptyString \/ description = EmptyString ->
     run = (w, Raised TitleAndDescriptionRequired)) /\
    (title <> EmptyString -> description <> EmptyString ->
     match insertProblem (trim title) (trim description) tags with
     | None =>
         run = (mkWorld (encoder w) (requests w ++ [inserted]),
                Raised InsertProblemFailed)
     | Some problem =>
         match generateEmbedding pipeline model
                 (title ++ " " ++ description) 384 (encoder w) with
         | (st, Throw e) =>
             run = (mkWorld st (requests w ++ [inserted]),
                    Raised (Encoder e))
         | (st, Ok embedding) =>
             length embedding = D /\
             run = (mkWorld st
                      (requests w
                       ++ [inserted;
                           InsertEmbedding (id problem) embedding]),
                    Done (mkCreated problem
                            (insertEmbedding (id problem) embedding)))
         end
     end) /\
    match snd run with
    | Raised TitleAndDescriptionRequired =>
        fst run = w /\ (title = EmptyString \/ description = EmptyString)
    | Raised InsertProblemFailed =>
        insertProblem (trim title) (trim description) tags = None /\
        requests (fst run) = requests w ++ [inserted] /\
        encoder (fst run) = encoder w
    | Raised (Encoder e) =>
        requests (fst run) = requests w ++ [inserted] /\
        exists problem,
          insertProblem (trim title) (trim description) tags = Some problem
    | Raised _ => False
    | Done c =>
        insertProblem (trim title) (trim description) tags
        = Some (created_problem c) /\
        exists embedding,
          length embedding = D /\
          requests (fst run)
          = requests w
            ++ [inserted; InsertEmbedding (id (created_problem c)) embedding]
          /\
          embedding_created c
          = insertEmbedding (id (created_problem c)) embedding
    end.
Proof.
  intros pipeline model insertProblem insertEmbedding title description tags
         w run inserted.
  destruct (addProblemWithEmbedding_run pipeline model insertProblem
              insertEmbedding title description tags w) as [Hguard Hrun].
  fold run inserted in Hguard, Hrun.
  split; [exact Hguard|]. split; [exact Hrun|].
  destruct (string_dec title EmptyString) as [Ht | Ht].
  { rewrite Hguard by now left. cbn. split; [reflexivity | now left]. }
  destruct (string_dec description EmptyString) as [Hd | Hd].
  { rewrite Hguard by now right. cbn. split; [reflexivity | now right]. }
  specialize (Hrun Ht Hd).
  destruct (insertProblem (trim title) (trim description) tags)
    as [problem |] eqn:Hins.
  - destruct (generateEmbedding pipeline model (title ++ " " ++ description)
                384 (encoder w)) as [st [embedding | e]].
    + destruct Hrun as [Hlen ->]. cbn. split; [reflexivity|].
      exists embedding. now repeat split.
    + rewrite Hrun. cbn. split; [reflexivity|]. now exists problem.
  - rewrite Hrun. cbn. now repeat split.
Qed.

(** X20.  A title and a description made of white space pass the guard of
    [addProblemWithEmbedding], which then asks the store to insert a
    problem with an empty title and an empty description.  The call never
    returns a problem: when the store refuses the row it fails with the
    insert error; when the store takes it, the encoder refuses the text
    and the call fails with the encoder's error, the row written.  The
    encoder is left as it was. *)
Theorem addProblemWithEmbedding_blank_fields :
  forall (pipeline : outcome unit) (model : string -> outcome (list R))
         (insertProblem : string -> string -> list string -> option problem)
         (insertEmbedding : Z -> list R -> bool)
         (title description : string) (tags : list string) (w : world),
    title <> EmptyString -> description <> EmptyString ->
    blank title = true -> blank description = true ->
    addProblemWithEmbedding pipeline model insertProblem insertEmbedding
      title description tags w
    = (mkWorld (encoder w)
         (requests w ++ [InsertProblem EmptyString EmptyString tags]),
       match insertProblem EmptyString EmptyString tags with
       | None => Raised InsertProblemFailed
       | Some _ => Raised (Encoder TextEmptyAfterTrim)
       end).
Proof.
  intros pipeline model insertProblem insertEmbedding title description tags
         w Ht Hd Hbt Hbd.
  unfold addProblemWithEmbedding.
  rewrite (falsy_string_false _ Ht), (falsy_string_false _ Hd). cbn [orb].
  rewrite (proj2 (trim_blank title) Hbt),
    (proj2 (trim_blank description) Hbd).
  destruct (insertProblem EmptyString EmptyString tags) as [row |];
    [|reflexivity].
  cbn [encoder requests].
  assert (Hgen : generateEmbedding pipeline model
                   (title ++ " " ++ description) 384 (encoder w)
                 = (encoder w, Throw TextEmptyAfterTrim)).
  { unfold generateEmbedding.
    assert (Htrim : trim (title ++ " " ++ description) = EmptyString).
    { apply trim_blank. rewrite blank_joined, Hbt, Hbd. reflexivity. }
    destruct title as [| c title]; [contradiction|]. cbn [falsy_string].
    change (String c title ++ " " ++ description)%string
      with (String c (title ++ " " ++ description)).
    cbn [falsy_string].
    change (String c (title ++ " " ++ description))
      with (String c title ++ " " ++ description)%string.
    now rewrite Htrim. }
  now rewrite Hgen.
Qed.

(** The theorem at a store that refuses an empty title, as the [CHECK]
    constraints of the schema of the repository do. *)
Lemma addProblemWithEmbedding_blank_fields_witness :
  let insertProblem := fun (t d : string) (_ : list string) =>
        match t, d with
        | String _ _, String _ _ => Some (mkProblem 7 t d)
        | _, _ => None
        end in
  " "%string <> EmptyString /\ blank " " = true /\
  addProblemWithEmbedding (Returned tt) (fun _ => Returned [1])
    insertProblem (fun _ _ => true) " " "  " [] (mkWorld (mkState false []) [])
  = (mkWorld (mkState false []) [InsertProblem "" "" []],
     Raised InsertProblemFailed).
Proof.
  intros insertProblem.
  split; [discriminate|]. split; [reflexivity|].
  apply (addProblemWithEmbedding_blank_fields (Returned tt)
           (fun _ => Returned [1]) insertProblem (fun _ _ => true) " " "  "
           [] (mkWorld (mkState false []) []));
    try discriminate; reflexivity.
Defined.

(** X21.  [updateEmbedding], step by step.  It reads the problem; when
    the problem cannot be read it fails, and nothing is embedded and
    nothing is written.  When the encoder fails on the title and the
    description read, it fails with the encoder's error and nothing is
    written.  Otherwise it writes one embedding of 384 components for the
    id it was given, and returns the row the store answers, or fails when
    the store refuses the write. *)
Theorem updateEmbedding_requests :
  forall (pipeline : outcome unit) (model : string -> outcome (list R))
         (selectProblem : Z -> option problem)
         (upsertEmbedding : Z -> list R -> option embedding_row)
         (problemId : Z) (w : world),
    let run := updateEmbedding pipeline model selectProblem upsertEmbedding
                 problemId w in
    let selected := requests w ++ [SelectProblem problemId] in
    match selectProblem problemId with
    | None => run = (mkWorld (encoder w) selected, Raised ProblemNotFound)
    | Some problem =>
        match generateEmbedding pipeline model
                (title problem ++ " " ++ description problem) 384
                (encoder w) with
        | (st, Throw e) => run = (mkWorld st selected, Raised (Encoder e))
        | (st, Ok embedding) =>
            length embedding = D /\
            run = (mkWorld st
                     (selected ++ [UpsertEmbedding problemId embedding]),
                   match upsertEmbedding problemId embedding with
                   | Some data => Done data
                   | None => Raised UpsertEmbeddingFailed
                   end)
        end
    end /\
    match snd run with
    | Done data =>
        exists embedding,
          length embedding = D /\
          upsertEmbedding problemId embedding = Some data /\
          requests (fst run)
          = requests w
            ++ [SelectProblem problemId; UpsertEmbedding problemId embedding]
    | Raised ProblemNotFound =>
        selectProblem problemId = None /\
        fst run
        = mkWorld (encoder w) (requests w ++ [SelectProblem problemId])
    | Raised (Encoder e) =>
        requests (fst run) = requests w ++ [SelectProblem problemId]
    | Raised UpsertEmbeddingFailed =>
        exists embedding,
          length embedding = D /\
          upsertEmbedding problemId embedding = None /\
          requests (fst run)
          = requests w
            ++ [SelectProblem problemId; UpsertEmbedding problemId embedding]
    | Raised _ => False
    end.
Proof.
  intros pipeline model selectProblem upsertEmbedding problemId w.
  cbv zeta. unfold updateEmbedding.
  destruct (selectProblem problemId) as [problem |] eqn:Hsel;
    [|cbn; now repeat split].
  cbn [encoder requests].
  destruct (generateEmbedding pipeline model
              (title problem ++ " " ++ description problem) 384 (encoder w))
    as [st [embedding | e]] eqn:Hgen; [|now split].
  assert (Hlen : length embedding = D)
    by now apply (generateEmbedding_length _ _ _ _ _ _ _ Hgen).
  destruct (upsertEmbedding problemId embedding) as [data |] eqn:Hup; cbn;
    (split; [now split|]); exists embedding; rewrite <- app_assoc;
    repeat split; auto.
Qed.

(** X22.  [updateProblem] never fails because of the embedding.  Once the
    row is updated the call returns it; the embedding is regenerated
    exactly when it is asked for and a non-empty title or description was
    given, [embedding_updated] then tells whether that went through, and
    an update of the tags alone sends the one update request and leaves
    the encoder alone. *)
Theorem updateProblem_embedding :
  forall (pipeline : outcome unit) (model : string -> outcome (list R))
         (selectProblem : Z -> option problem)
         (upsertEmbedding : Z -> list R -> option embedding_row)
         (updateProblemRow : Z -> update_data -> option problem)
         (problemId : Z) (updateData : update_data)
         (regenerateEmbedding : bool) (w : world) (row : problem),
    no_keys (cleaned updateData) = false ->
    updateProblemRow problemId (cleaned updateData) = Some row ->
    let run :=
      updateProblem pipeline model selectProblem upsertEmbedding
        updateProblemRow (Some problemId) updateData regenerateEmbedding w in
    let w1 :=
      mkWorld (encoder w)
        (requests w ++ [UpdateProblem problemId (cleaned updateData)]) in
    let refresh :=
      regenerateEmbedding
      && (truthy_text (update_title updateData)
          || truthy_text (update_description updateData)) in
    exists flag,
      snd run = Done (mkUpdated row flag) /\
      (refresh = false -> flag = None /\ fst run = w1) /\
      (refresh = true ->
       fst run
       = fst (updateEmbedding pipeline model selectProblem upsertEmbedding
                problemId w1) /\
       flag
       = Some match snd (updateEmbedding pipeline model selectProblem
                           upsertEmbedding problemId w1) with
              | Done _ => true
              | Raised _ => false
              end).
Proof.
  intros pipeline model selectProblem upsertEmbedding updateProblemRow
         problemId updateData regenerateEmbedding w row Hkeys Hrow run w1
         refresh.
  unfold run, updateProblem. rewrite Hkeys, Hrow. fold w1. fold refresh.
  destruct refresh.
  - destruct (updateEmbedding pipeline model selectProblem upsertEmbedding
                problemId w1) as [w2 [data | e]]; cbn [fst snd].
    + exists (Some true). repeat split; try discriminate; reflexivity.
    + exists (Some false). repeat split; try discriminate; reflexivity.
  - exists None. cbn [fst snd]. repeat split; try discriminate; reflexivity.
Qed.

Lemma updateProblem_embedding_witness :
  let updateData := mkUpdate None None (Some ["vpn"%string]) in
  let updateProblemRow := fun (key : Z) (_ : update_data) =>
        Some (mkProblem key "t" "d") in
  no_keys (cleaned updateData) = false /\
  exists flag,
    snd (updateProblem (Returned tt) (fun _ => Returned [1])
           (fun _ => None) (fun _ _ => None) updateProblemRow (Some 7%Z)
           updateData true (mkWorld (mkState false []) []))
    = Done (mkUpdated (mkProblem 7 "t" "d") flag).
Proof.
  intros updateData updateProblemRow.
  split; [reflexivity|].
  destruct (updateProblem_embedding (Returned tt) (fun _ => Returned [1])
              (fun _ => None) (fun _ _ => None) updateProblemRow 7
              updateData true (mkWorld (mkState false []) [])
              (mkProblem 7 "t" "d") eq_refl eq_refl) as [flag [Hrun _]].
  now exists flag.
Defined.

(** X23.  [updateProblem] refuses, before any request is sent, a call
    without an id and a call whose title and description are missing or
    empty and whose tags are missing; an empty title next to a real
    description is dropped from the update. *)
Theorem updateProblem_nothing_to_update :
  forall (pipeline : outcome unit) (model : string -> outcome (list R))
         (selectProblem : Z -> option problem)
         (upsertEmbedding : Z -> list R -> option embedding_row)
         (updateProblemRow : Z -> update_data -> option problem)
         (problemId : option Z) (updateData : update_data)
         (regenerateEmbedding : bool) (w : world),
    let run :=
      updateProblem pipeline model selectProblem upsertEmbedding
        updateProblemRow problemId updateData regenerateEmbedding w in
    (problemId = None -> run = (w, Raised ProblemIdRequired)) /\
    (problemId <> None ->
     (run = (w, Raised NoUpdateData) <->
      truthy_text (update_title updateData) = false /\
      truthy_text (update_description updateData) = false /\
      update_tags updateData = None)) /\
    (truthy_text (update_title updateData) = false ->
     update_title (cleaned updateData) = None).
Proof.
  intros pipeline model selectProblem upsertEmbedding updateProblemRow
         problemId updateData regenerateEmbedding w run.
  split; [now intros ->|]. split.
  - destruct problemId as [key |]; [intros _ | easy].
    unfold run, updateProblem, no_keys, cleaned.
    cbn [update_title update_description update_tags].
    destruct (truthy_text (update_title updateData)) eqn:Ht,
      (truthy_text (update_description updateData)) eqn:Hd,
      (update_tags updateData) as [tags |] eqn:Htags;
      try (destruct (update_title updateData); [|discriminate]);
      try (destruct (update_description updateData); [|discriminate]);
      cbn [option_map];
      try (split; [|intros [? [? ?]]; discriminate]);
      try (split; [reflexivity | intros; reflexivity]);
      try (destruct (updateProblemRow key _) as [row |];
           [|discriminate];
           destruct (regenerateEmbedding && _);
           [destruct (updateEmbedding _ _ _ _ _ _) as [w2 [? | ?]]|];
           discriminate).
    all: try tauto.
  - intros Ht. unfold cleaned. cbn. now rewrite Ht.
Qed.

(** ** Validation in front of the services *)

Import Validation.

Lemma blank_false_trim (s : string) :
  (String.length (trim s) =? 0)%nat = false -> blank s = false.
Proof.
  intros H. destruct (blank s) eqn:Hb; [|reflexivity].
  apply trim_blank in Hb. now rewrite Hb in H.
Qed.

(** The errors of [generateEmbedding] on a text that is not blank are
    those of the transformers library. *)
Lemma generateEmbedding_nonblank pipeline model text dimensions st e :
  blank text = false ->
  snd (generateEmbedding pipeline model text dimensions st) = Throw e ->
  exists code, e = External code.
Proof.
  intros Hb H.
  destruct (generateEmbedding_cases pipeline model text dimensions st)
    as [[Hempty _] | [[_ [_ [code [_ Hrun]]]] | [_ [_ [r [Hrun Hr]]]]]].
  - apply trim_blank in Hempty. congruence.
  - rewrite Hrun in H. cbn in H. exists code. congruence.
  - rewrite Hrun in H. cbn in H. subst r.
    destruct Hr as [[code [_ Hr]] | [data [v [_ [Hr _]]]]];
      [|discriminate].
    exists code. congruence.
Qed.

Lemma conclude_next (errors : list issue) :
  conclude errors = Next -> errors = [].
Proof. now destruct errors. Qed.

Lemma app_single_nil {A} (l : list A) (x : A) : l ++ [x] <> [].
Proof. now destruct l. Qed.

(** What [validateProblem] lets through. *)
Lemma validateProblem_next (body : problem_body) :
  validateProblem body = Next ->
  exists title description,
    body_title body = VString title /\
    body_description body = VString description /\
    blank title = false /\ blank description = false /\
    (String.length title <= 255)%nat.
Proof.
  unfold validateProblem. intros H. apply conclude_next in H.
  set (e1 := if negb (truthy (body_title body)) then _ else _) in H.
  set (e2 := if negb (truthy (body_description body)) then _ else _) in H.
  assert (H2 : e2 = []).
  { destruct (body_tags body); auto; now apply app_single_nil in H. }
  assert (H1 : e1 = []).
  { subst e2. destruct (negb (truthy (body_description body)));
      [now apply app_single_nil in H2|].
    destruct (body_description body); try (now apply app_single_nil in H2).
    destruct (_ =? _)%nat; [now apply app_single_nil in H2 | exact H2]. }
  subst e2. rewrite H1 in H2. subst e1. clear H.
  destruct (negb (truthy (body_title body))); [discriminate|].
  destruct (body_title body) as [| | b | x | title | |]; try discriminate.
  destruct (String.length (trim title) =? 0)%nat eqn:Htt; [discriminate|].
  destruct (255 <? String.length title)%nat eqn:Hlen; [discriminate|].
  destruct (negb (truthy (body_description body))); [discriminate|].
  destruct (body_description body) as [| | b | x | description | |];
    try discriminate.
  destruct (String.length (trim description) =? 0)%nat eqn:Htd;
    [discriminate|].
  exists title, description. repeat split.
  - now apply blank_false_trim.
  - now apply blank_false_trim.
  - now apply Nat.ltb_ge in Hlen.
Qed.

(** X24.  A body that [validateProblem] lets through has a title and a
    description that are strings with more than white space in them, the
    title of at most 255 characters.  [addProblemWithEmbedding] on them
    stores a title and a description that are not empty, and can fail
    only because the store refuses the problem or the transformers
    library fails: not on its own guard, and not on the guards of
    [generateEmbedding]. *)
Theorem validateProblem_guards_creation :
  forall (pipeline : outcome unit) (model : string -> outcome (list R))
         (insertProblem : string -> string -> list string -> option problem)
         (insertEmbedding : Z -> list R -> bool)
         (body : problem_body) (tags : list string) (w : world),
    validateProblem body = Next ->
    exists title description,
      body_title body = VString title /\
      body_description body = VString description /\
      (String.length title <= 255)%nat /\
      trim title <> EmptyString /\ trim description <> EmptyString /\
      forall e,
        snd (addProblemWithEmbedding pipeline model insertProblem
               insertEmbedding title description tags w) = Raised e ->
        (e = InsertProblemFailed /\
         insertProblem (trim title) (trim description) tags = None) \/
        exists code, e = Encoder (External code).
Proof.
  intros pipeline model insertProblem insertEmbedding body tags w H.
  destruct (validateProblem_next body H)
    as [title [description [Ht [Hd [Hbt [Hbd Hlen]]]]]].
  exists title, description. repeat split; auto.
  - intros E. apply trim_blank in E. congruence.
  - intros E. apply trim_blank in E. congruence.
  - intros e. unfold addProblemWithEmbedding.
    assert (Hft : falsy_string title = false) by now destruct title.
    assert (Hfd : falsy_string description = false)
      by now destruct description.
    rewrite Hft, Hfd. cbn [orb].
    destruct (insertProblem (trim title) (trim description) tags)
      as [problem |] eqn:Hins.
    + cbn [encoder requests].
      destruct (generateEmbedding pipeline model
                  (title ++ " " ++ description) 384 (encoder w))
        as [st [embedding | e']] eqn:Hgen; cbn; [discriminate|].
      intros E. injection E as <-. right.
      destruct (generateEmbedding_nonblank pipeline model
                  (title ++ " " ++ description) 384 (encoder w) e')
        as [code ->].
      * now rewrite blank_joined, Hbt.
      * now rewrite Hgen.
      * now exists code.
    + cbn. intros E. injection E as <-. now left.
Qed.

Lemma validateProblem_guards_creation_witness :
  let body := mkProblemBody (VString "vpn") (VString "tunnel down")
                VUndefined in
  validateProblem body = Next /\
  exists title description,
    body_title body = VString title /\
    body_description body = VString description /\
    trim title <> EmptyString /\ trim description <> EmptyString.
Proof.
  intros body. split; [reflexivity|].
  destruct (validateProblem_guards_creation (Returned tt)
              (fun _ => Returned [1]) (fun _ _ _ => None) (fun _ _ => true)
              body [] (mkWorld (mkState false []) []) eq_refl)
    as [title [description [Ht [Hd [_ [Htt [Htd _]]]]]]].
  now exists title, description.
Defined.

(** What [validateSearchParams] lets through. *)
Lemma validateSearchParams_next parseInt parseFloat (body : search_body) :
  validateSearchParams parseInt parseFloat body = Next ->
  (exists query,
     body_query body = VString query /\ blank query = false /\
     (String.length query <= 500)%nat) /\
  (body_limit body = VUndefined \/
   exists limitNum,
     parseInt (body_limit body) = Some limitNum /\
     (1 <= limitNum <= 100)%Z) /\
  (body_threshold body = VUndefined \/
   exists thresholdNum,
     parseFloat (body_threshold body) = Some thresholdNum /\
     0 <= thresholdNum <= 1).
Proof.
  unfold validateSearchParams. intros H. apply conclude_next in H.
  set (e1 := if negb (truthy (body_query body)) then _ else _) in H.
  set (e2 := match body_limit body with VUndefined => e1 | _ => _ end) in H.
  assert (H2 : e2 = []).
  { destruct (body_threshold body); auto;
      destruct (parseFloat _); try (now apply app_single_nil in H);
      destruct (_ || _); auto; now apply app_single_nil in H. }
  assert (H1 : e1 = []).
  { subst e2. destruct (body_limit body); auto;
      destruct (parseInt _); try (now apply app_single_nil in H2);
      destruct (_ || _); auto; now apply app_single_nil in H2. }
  split; [|split].
  - subst e1. clear H H2 e2.
    destruct (negb (truthy (body_query body))); [discriminate|].
    destruct (body_query body) as [| | b | x | query | |];
      try discriminate.
    destruct (String.length (trim query) =? 0)%nat eqn:Htq; [discriminate|].
    destruct (500 <? String.length query)%nat eqn:Hlen; [discriminate|].
    exists query. repeat split.
    + now apply blank_false_trim.
    + now apply Nat.ltb_ge in Hlen.
  - clear H. subst e2. rewrite H1 in H2.
    destruct (body_limit body) eqn:Hl; [now left | ..]; right;
      (destruct (parseInt _) as [limitNum |]; [|discriminate];
       destruct ((limitNum <=? 0)%Z || (100 <? limitNum)%Z) eqn:Hr;
       [discriminate|];
       apply orb_false_iff in Hr; destruct Hr as [Hlo Hhi];
       exists limitNum; split; [reflexivity | lia]).
  - rewrite H2 in H. clear H1 H2 e1 e2.
    destruct (body_threshold body) eqn:Hl; [now left | ..]; right;
      (destruct (parseFloat _) as [thresholdNum |]; [|discriminate];
       destruct (Rltb thresholdNum 0 || Rltb 1 thresholdNum) eqn:Hr;
       [discriminate|];
       apply orb_false_iff in Hr; destruct Hr as [Hlo Hhi];
       unfold Rltb in Hlo, Hhi;
       destruct (Rlt_dec thresholdNum 0); [discriminate|];
       destruct (Rlt_dec 1 thresholdNum); [discriminate|];
       exists thresholdNum; split; [reflexivity | lra]).
Qed.

(** The errors of [semanticSearch] on a query that is not blank. *)
Lemma semanticSearch_nonblank JSON_parse pipeline model selectEmbeddings
  selectProblems query limit threshold st e :
  blank query = false ->
  snd (semanticSearch JSON_parse pipeline model selectEmbeddings
         selectProblems query limit threshold st) = Throw e ->
  (exists code, e = External code) \/ e = EmbeddingsFetchFailed \/
  e = ProblemsFetchFailed \/ e = TypeError.
Proof.
  intros Hb. unfold semanticSearch.
  assert (Hf : falsy_string query = false) by now destruct query.
  rewrite Hf.
  pose proof (generateEmbedding_nonblank pipeline model query 384 st)
    as Hgen.
  destruct (generateEmbedding pipeline model query 384 st)
    as [st1 [queryEmbedding | e']]; cbn [snd] in *.
  2:{ intros E. injection E as <-. left. now apply Hgen. }
  destruct selectEmbeddings as [[| row rows] |]; cbn [snd].
  - discriminate.
  - destruct (topMatches _ _ _) as [| m top]; cbn [snd]; [discriminate|].
    destruct (selectProblems _) as [problems |]; cbn [snd].
    + destruct (attachScores _ _) as [results | e''] eqn:Hatt; cbn [snd];
        [discriminate|].
      intros E. injection E as <-.
      apply attachScores_error in Hatt. auto.
    + intros E. injection E as <-. auto.
  - intros E. injection E as <-. auto.
Qed.

(** X25.  A body that [validateSearchParams] lets through has a query
    that is a string of at most 500 characters with more than white space
    in it, a limit that is absent or parses to an integer from 1 to 100,
    and a threshold that is absent or parses to a number from 0 to 1.
    [semanticSearch] on that query, whatever the limit and the threshold,
    never fails on its own guard or on the guards of [generateEmbedding]. *)
Theorem validateSearchParams_guards_search :
  forall (parseInt : value -> option Z) (parseFloat : value -> option R)
         (body : search_body),
    validateSearchParams parseInt parseFloat body = Next ->
    exists query,
      body_query body = VString query /\
      trim query <> EmptyString /\
      (String.length query <= 500)%nat /\
      (body_limit body = VUndefined \/
       exists limitNum,
         parseInt (body_limit body) = Some limitNum /\
         (1 <= limitNum <= 100)%Z) /\
      (body_threshold body = VUndefined \/
       exists thresholdNum,
         parseFloat (body_threshold body) = Some thresholdNum /\
         0 <= thresholdNum <= 1) /\
      forall JSON_parse pipeline model selectEmbeddings selectProblems
             limit threshold st e,
        snd (semanticSearch JSON_parse pipeline model selectEmbeddings
               selectProblems query limit threshold st) = Throw e ->
        e <> QueryNotNonEmptyString /\ e <> TextNotNonEmptyString /\
        e <> TextEmptyAfterTrim.
Proof.
  intros parseInt parseFloat body H.
  destruct (validateSearchParams_next parseInt parseFloat body H)
    as [[query [Hq [Hb Hlen]]] [Hlimit Hthreshold]].
  exists query. split; [assumption|].
  split; [intros E; apply trim_blank in E; congruence|].
  repeat (split; [assumption|]).
  intros JSON_parse pipeline model selectEmbeddings selectProblems limit
         threshold st e He.
  destruct (semanticSearch_nonblank _ _ _ _ _ _ _ _ _ _ Hb He)
    as [[code ->] | [-> | [-> | ->]]]; repeat split; discriminate.
Qed.

Lemma validateSearchParams_guards_search_witness :
  let parseInt := fun v : value =>
        match v with VNumber _ => Some 5%Z | _ => None end in
  let body := mkSearchBody (VString "vpn") (VNumber 5) VUndefined in
  validateSearchParams parseInt (fun _ => None) body = Next /\
  exists query,
    body_query body = VString query /\ (String.length query <= 500)%nat.
Proof.
  intros parseInt body. split; [reflexivity|].
  destruct (validateSearchParams_guards_search parseInt (fun _ => None)
              body eq_refl) as [query [Hq [_ [Hlen _]]]].
  now exists query.
Defined.
